(** * Credit ledger and redemption engine of OSINT_LOOKUP

    A shallow embedding of [src/database.py] (the SQLite-backed stores and the
    operations over them) and of the handlers of [src/main.py] that read and
    write them, followed by the properties of the ledger.

    Conventions of the embedding:
    - a table with a primary key is a finite map from the key to the row;
      [redeem_logs] is the list of its rows in insertion order (the
      AUTOINCREMENT [id] column is the position and is not stored);
    - SQL [INTEGER] columns and Python [int] are [Z]; the 64-bit bound of the
      store is not modelled;
    - the 0/1 flag columns [is_active] and [is_banned] are [bool];
    - a nullable column is an [option];
    - the clock is an explicit argument [now], counted in seconds; one call of
      an operation reads one clock value;
    - every call runs as a task of its own and gives way at each [await]: an
      operation is a function on the stores, and the functions and handlers
      that read, await and then write ([redeem_code_db], [start_command],
      [process_api_call]) are given a second time cut at their awaits, as
      pieces that a schedule interleaves;
    - text is [string]; the model covers ASCII input. *)

From Stdlib Require Import ZArith List Bool Ascii String Lia.
From stdpp Require Import base option gmap strings list fin_maps.

Local Open Scope string_scope.
Local Open Scope Z_scope.

(** ** Duration parser: [parse_time_string] *)

Module Duration.

(** [\d] restricted to ASCII. *)
Definition is_digit (c : ascii) : bool :=
  ((48 <=? nat_of_ascii c) && (nat_of_ascii c <=? 57))%nat.

Definition lower_char (c : ascii) : ascii :=
  if ((65 <=? nat_of_ascii c) && (nat_of_ascii c <=? 90))%nat
  then ascii_of_nat (nat_of_ascii c + 32)
  else c.

(** [str.lower()] *)
Fixpoint lower (s : string) : string :=
  match s with
  | EmptyString => EmptyString
  | String c s' => String (lower_char c) (lower s')
  end.

Definition digit_value (c : ascii) : Z := Z.of_nat (nat_of_ascii c) - 48.

(** [int(s)] on a string of decimal digits, most significant first. *)
Fixpoint int_acc (acc : Z) (s : string) : Z :=
  match s with
  | EmptyString => acc
  | String c s' => int_acc (10 * acc + digit_value c) s'
  end.

Definition int (s : string) : Z := int_acc 0 s.

Fixpoint all_digits (s : string) : bool :=
  match s with
  | EmptyString => true
  | String c s' => is_digit c && all_digits s'
  end.

(** [str.isdigit()]: non-empty and digits only. *)
Definition isdigit (s : string) : bool :=
  match s with
  | EmptyString => false
  | _ => all_digits s
  end.

(** The longest run of digits at the head of [s], and what follows it. *)
Fixpoint span_digits (s : string) : string * string :=
  match s with
  | EmptyString => (EmptyString, EmptyString)
  | String c s' =>
      if is_digit c
      then let '(ds, rest) := span_digits s' in (String c ds, rest)
      else (EmptyString, s)
  end.

(** The pattern [(\d+)u] anchored at the head of [s], for a unit letter [u]
    that is not a digit: the greedy [\d+] takes the whole run, and giving
    digits back cannot help because the character after a shorter run is a
    digit.  Returns group 1. *)
Definition match_here (u : ascii) (s : string) : option string :=
  match span_digits s with
  | (EmptyString, _) => None
  | (ds, String c _) => if Ascii.eqb c u then Some ds else None
  | (_, EmptyString) => None
  end.

(** [re.search(r'(\d+)u', s)]: the match at the leftmost position that has
    one; the result is [group(1)]. *)
Fixpoint re_search (u : ascii) (s : string) : option string :=
  match match_here u s with
  | Some g => Some g
  | None =>
      match s with
      | EmptyString => None
      | String _ s' => re_search u s'
      end
  end.

Definition is_some {A} (o : option A) : bool :=
  match o with Some _ => true | None => false end.

(** [parse_time_string(time_str)]; [None] as argument is Python's [None]. *)
Definition parse_time_string (time_str : option string) : option Z :=
  match time_str with
  | None => None
  | Some raw =>
      if String.eqb raw "" || String.eqb (lower raw) "none" then None
      else
        let time_str := lower raw in
        let total_minutes := 0 in
        let hour_match := re_search "h" time_str in
        let total_minutes :=
          match hour_match with
          | Some g => total_minutes + int g * 60
          | None => total_minutes
          end in
        let minute_match := re_search "m" time_str in
        let total_minutes :=
          match minute_match with
          | Some g => total_minutes + int g
          | None => total_minutes
          end in
        let total_minutes :=
          if negb (is_some hour_match) && negb (is_some minute_match)
             && isdigit time_str
          then int time_str
          else total_minutes in
        if total_minutes >? 0 then Some total_minutes else None
  end.

End Duration.

(** ** The stores *)

(** A row of [users] (key: [user_id]). *)
Record user_row := mk_user {
  username : option string;
  credits : Z;
  joined_date : Z;
  referrer_id : option Z;
  is_banned : bool;
  total_earned : Z;
  last_active : Z
}.

(** A row of [redeem_codes] (key: [code]). *)
Record code_row := mk_code {
  amount : Z;
  max_uses : Z;
  current_uses : Z;
  expiry_minutes : option Z;
  created_date : Z;
  is_active : bool
}.

(** A row of [redeem_logs]; the table is UNIQUE on [(user_id, code)]. *)
Record log_row := mk_log {
  log_user : Z;
  log_code : string;
  claimed_date : Z
}.

Record db := mk_db {
  users : gmap Z user_row;
  redeem_codes : gmap string code_row;
  redeem_logs : list log_row
}.

(** The stores right after [init_db] on a fresh file. *)
Definition init_db : db := mk_db ∅ ∅ [].

Definition with_users (f : gmap Z user_row → gmap Z user_row) (st : db) : db :=
  mk_db (f (users st)) (redeem_codes st) (redeem_logs st).

Definition with_codes (f : gmap string code_row → gmap string code_row) (st : db) : db :=
  mk_db (users st) (f (redeem_codes st)) (redeem_logs st).

Definition with_logs (f : list log_row → list log_row) (st : db) : db :=
  mk_db (users st) (redeem_codes st) (f (redeem_logs st)).

(** Single-column updates of a row. *)
Definition add_credits (d : Z) (u : user_row) : user_row :=
  mk_user (username u) (credits u + d) (joined_date u) (referrer_id u)
          (is_banned u) (total_earned u) (last_active u).

Definition add_total_earned (d : Z) (u : user_row) : user_row :=
  mk_user (username u) (credits u) (joined_date u) (referrer_id u)
          (is_banned u) (total_earned u + d) (last_active u).

Definition set_credits (c : Z) (u : user_row) : user_row :=
  mk_user (username u) c (joined_date u) (referrer_id u)
          (is_banned u) (total_earned u) (last_active u).

Definition set_banned (b : bool) (u : user_row) : user_row :=
  mk_user (username u) (credits u) (joined_date u) (referrer_id u)
          b (total_earned u) (last_active u).

Definition set_username (n : option string) (u : user_row) : user_row :=
  mk_user n (credits u) (joined_date u) (referrer_id u)
          (is_banned u) (total_earned u) (last_active u).

Definition set_last_active (t : Z) (u : user_row) : user_row :=
  mk_user (username u) (credits u) (joined_date u) (referrer_id u)
          (is_banned u) (total_earned u) t.

(** [SET referrer_id = NULL WHERE referrer_id = uid], on one row. *)
Definition clear_referrer (uid : Z) (u : user_row) : user_row :=
  match referrer_id u with
  | Some r =>
      if r =? uid
      then mk_user (username u) (credits u) (joined_date u) None
                   (is_banned u) (total_earned u) (last_active u)
      else u
  | None => u
  end.

Definition incr_uses (c : code_row) : code_row :=
  mk_code (amount c) (max_uses c) (current_uses c + 1) (expiry_minutes c)
          (created_date c) (is_active c).

Definition set_inactive (c : code_row) : code_row :=
  mk_code (amount c) (max_uses c) (current_uses c) (expiry_minutes c)
          (created_date c) false.

(** ** Account store *)

Definition get_user (user_id : Z) (st : db) : option user_row :=
  users st !! user_id.

Definition add_user (user_id : Z) (uname : option string)
    (referrer : option Z) (now : Z) (st : db) : db :=
  match users st !! user_id with
  | Some _ => st
  | None =>
      let credits := 5 in
      with_users (insert user_id (mk_user uname credits now referrer false 0 now)) st
  end.

Definition update_credits (user_id : Z) (amt : Z) (st : db) : db :=
  if amt >? 0
  then with_users (alter (λ u, add_total_earned amt (add_credits amt u)) user_id) st
  else with_users (alter (add_credits amt) user_id) st.

Definition set_ban_status (user_id : Z) (status : bool) (st : db) : db :=
  with_users (alter (set_banned status) user_id) st.

Definition reset_user_credits (user_id : Z) (st : db) : db :=
  with_users (alter (set_credits 0) user_id) st.

Definition update_username (user_id : Z) (n : option string) (st : db) : db :=
  with_users (alter (set_username n) user_id) st.

Definition update_last_active (user_id : Z) (now : Z) (st : db) : db :=
  with_users (alter (set_last_active now) user_id) st.

Definition bulk_update_credits (user_ids : list Z) (amt : Z) (st : db) : db :=
  fold_left (λ acc user_id, update_credits user_id amt acc) user_ids st.

Definition delete_user (user_id : Z) (st : db) : db :=
  let st := with_users (delete user_id) st in
  let st := with_logs (List.filter (λ l, negb (log_user l =? user_id))) st in
  with_users (fmap (clear_referrer user_id)) st.

(** ** Code store *)

(** [INSERT OR REPLACE]: the row is rebuilt, [current_uses] takes its
    default 0. *)
Definition create_redeem_code (code : string) (amt uses : Z)
    (expiry : option Z) (now : Z) (st : db) : db :=
  with_codes (insert code (mk_code amt uses 0 expiry now true)) st.

Definition delete_redeem_code (code : string) (st : db) : db :=
  with_codes (delete code) st.

Definition deactivate_code (code : string) (st : db) : db :=
  with_codes (alter set_inactive code) st.

(** ** Redemption engine: [redeem_code_db] *)

(** What [redeem_code_db] returns: the amount on success, one of five fixed
    strings, or an error text from the [except] branch. *)
Inductive outcome :=
| Success (amt : Z)
| AlreadyClaimed
| InvalidCode
| Inactive
| LimitReached
| Expired
| StoreError (msg : string).

Definition log_matches (user_id : Z) (code : string) (l : log_row) : bool :=
  (log_user l =? user_id) && String.eqb (log_code l) code.

(** [SELECT 1 FROM redeem_logs WHERE user_id = ? AND code = ?] has a row. *)
Definition has_claimed (user_id : Z) (code : string) (st : db) : bool :=
  existsb (log_matches user_id code) (redeem_logs st).

(** [timedelta(minutes=m)] in seconds. *)
Definition minutes (m : Z) : Z := 60 * m.

Definition is_expired (now : Z) (c : code_row) : bool :=
  match expiry_minutes c with
  | Some m => (m >? 0) && (now >? created_date c + minutes m)
  | None => false
  end.

(** The checks on the fetched row, in source order; [None] when all pass. *)
Definition redeem_checks (now : Z) (c : code_row) : option outcome :=
  if negb (is_active c) then Some Inactive
  else if current_uses c >=? max_uses c then Some LimitReached
  else if is_expired now c then Some Expired
  else None.

(** [INSERT OR IGNORE INTO redeem_logs]. *)
Definition insert_log_or_ignore (l : log_row) (logs : list log_row) : list log_row :=
  if existsb (log_matches (log_user l) (log_code l)) logs then logs
  else logs ++ [l].

(** The body between BEGIN TRANSACTION and COMMIT. *)
Definition redeem_transaction (now : Z) (user_id : Z) (code : string)
    (amt : Z) (st : db) : db :=
  let st := with_codes (alter incr_uses code) st in
  let st := with_users (alter (add_credits amt) user_id) st in
  let st := with_users (alter (add_total_earned amt) user_id) st in
  with_logs (insert_log_or_ignore (mk_log user_id code now)) st.

Definition redeem_code_db (now : Z) (user_id : Z) (code : string) (st : db)
    : db * outcome :=
  if has_claimed user_id code st then (st, AlreadyClaimed)
  else
    match redeem_codes st !! code with
    | None => (st, InvalidCode)
    | Some data =>
        match redeem_checks now data with
        | Some refusal => (st, refusal)
        | None => (redeem_transaction now user_id code (amount data) st,
                   Success (amount data))
        end
    end.

(** ** Registration with referral: [start_command] *)

(** The bonus credited to the referrer. *)
Definition referral_bonus : Z := 3.

Definition is_user_banned (user_id : Z) (st : db) : bool :=
  match get_user user_id st with
  | Some u => is_banned u
  | None => false
  end.

(** The writes of [start_command] to the stores; the messages it sends are
    left out.  [payload] is the integer carried by a [ref_<n>] start
    argument, [None] when there is no argument, another prefix, or [int()]
    failed.  [member] is the answer of [check_membership], which asks the
    messaging platform. *)
Definition start_command (user_id : Z) (uname : option string)
    (payload : option Z) (member : bool) (now : Z) (st : db) : db :=
  if is_user_banned user_id st then st
  else
    let st :=
      match get_user user_id st with
      | Some _ => st
      | None =>
          let referrer :=
            match payload with
            | Some r => if r =? user_id then None else Some r
            | None => None
            end in
          let st := add_user user_id uname referrer now st in
          match referrer with
          | Some r => if r =? 0 then st else update_credits r referral_bonus st
          | None => st
          end
      end in
    if member then update_last_active user_id now st else st.

(** ** Core operations as a transition system *)

Inductive op :=
| AddUser (user_id : Z) (uname : option string) (referrer : option Z) (now : Z)
| UpdateCredits (user_id : Z) (amt : Z)
| BulkUpdateCredits (user_ids : list Z) (amt : Z)
| ResetUserCredits (user_id : Z)
| SetBanStatus (user_id : Z) (status : bool)
| UpdateUsername (user_id : Z) (n : option string)
| UpdateLastActive (user_id : Z) (now : Z)
| DeleteUser (user_id : Z)
| CreateRedeemCode (code : string) (amt uses : Z) (expiry : option Z) (now : Z)
| DeactivateCode (code : string)
| DeleteRedeemCode (code : string)
| RedeemCodeDb (user_id : Z) (code : string) (now : Z).

Definition step (o : op) (st : db) : db :=
  match o with
  | AddUser uid n r t => add_user uid n r t st
  | UpdateCredits uid a => update_credits uid a st
  | BulkUpdateCredits uids a => bulk_update_credits uids a st
  | ResetUserCredits uid => reset_user_credits uid st
  | SetBanStatus uid b => set_ban_status uid b st
  | UpdateUsername uid n => update_username uid n st
  | UpdateLastActive uid t => update_last_active uid t st
  | DeleteUser uid => delete_user uid st
  | CreateRedeemCode c a u e t => create_redeem_code c a u e t st
  | DeactivateCode c => deactivate_code c st
  | DeleteRedeemCode c => delete_redeem_code c st
  | RedeemCodeDb uid c t => fst (redeem_code_db t uid c st)
  end.

Definition run (ops : list op) (st : db) : db :=
  fold_left (λ acc o, step o acc) ops st.

(** States the stores can be in: any run of core operations from [init_db]. *)
Inductive reachable : db → Prop :=
| reachable_init : reachable init_db
| reachable_step o st : reachable st → reachable (step o st).

(** Number of [redeem_logs] rows that reference [code]. *)
Definition count_logs (code : string) (logs : list log_row) : Z :=
  Z.of_nat (length (List.filter (λ l, String.eqb (log_code l) code) logs)).

(** The counter of every code row equals the number of claims logged for it. *)
Definition uses_consistent (st : db) : Prop :=
  ∀ code c, redeem_codes st !! code = Some c →
            current_uses c = count_logs code (redeem_logs st).

(** Operations after which the counters still agree with the log: a code may
    be (re)created only under an identifier nobody has claimed, and an account
    may be deleted only if none of its claims is on a code still stored. *)
Definition keeps_counters (o : op) (st : db) : Prop :=
  match o with
  | CreateRedeemCode code _ _ _ _ => count_logs code (redeem_logs st) = 0
  | DeleteUser user_id =>
      ∀ l, l ∈ redeem_logs st → log_user l = user_id →
           redeem_codes st !! log_code l = None
  | _ => True
  end.

(** The operations that write to [users] only. *)
Definition users_only (o : op) : bool :=
  match o with
  | AddUser _ _ _ _ | UpdateCredits _ _ | BulkUpdateCredits _ _
  | ResetUserCredits _ | SetBanStatus _ _ | UpdateUsername _ _
  | UpdateLastActive _ _ => true
  | _ => false
  end.

(** [code] has no row, or its row is switched off. *)
Definition not_active (code : string) (st : db) : Prop :=
  ∀ c, redeem_codes st !! code = Some c → is_active c = false.

Definition creates (code : string) (o : op) : Prop :=
  match o with
  | CreateRedeemCode code' _ _ _ _ => code' = code
  | _ => False
  end.

(** One account redeeming the same code at the successive times [nows]. *)
Fixpoint redeem_many (nows : list Z) (user_id : Z) (code : string) (st : db)
    : db * list outcome :=
  match nows with
  | [] => (st, [])
  | t :: ts =>
      let '(st1, o) := redeem_code_db t user_id code st in
      let '(st2, os) := redeem_many ts user_id code st1 in
      (st2, o :: os)
  end.

(** The accounts [user_ids] redeem [code] one after another, each call
    running to its end before the next starts. *)
Fixpoint redeem_each (now : Z) (user_ids : list Z) (code : string) (st : db)
    : db * list outcome :=
  match user_ids with
  | [] => (st, [])
  | uid :: rest =>
      let '(st1, o) := redeem_code_db now uid code st in
      let '(st2, os) := redeem_each now rest code st1 in
      (st2, o :: os)
  end.

(** ** Interleaved calls of [redeem_code_db]

    Every call opens its own connection; each [await] on it lets other calls
    run.  A call is cut at its awaits into three atomic pieces: the probe of
    [redeem_logs], the fetch of the code row with the checks on it, and the
    transaction. *)

Inductive pc :=
| AtProbe
| AtFetch
| AtCommit (amt : Z)
| Returned (o : outcome).

Record call := mk_call {
  call_user : Z;
  call_code : string;
  call_now : Z;
  call_pc : pc
}.

Definition new_call (user_id : Z) (code : string) (now : Z) : call :=
  mk_call user_id code now AtProbe.

Definition at_pc (c : call) (p : pc) : call :=
  mk_call (call_user c) (call_code c) (call_now c) p.

(** Run call [c] up to its next await. *)
Definition advance (c : call) (st : db) : db * call :=
  match call_pc c with
  | AtProbe =>
      if has_claimed (call_user c) (call_code c) st
      then (st, at_pc c (Returned AlreadyClaimed))
      else (st, at_pc c AtFetch)
  | AtFetch =>
      match redeem_codes st !! call_code c with
      | None => (st, at_pc c (Returned InvalidCode))
      | Some data =>
          match redeem_checks (call_now c) data with
          | Some refusal => (st, at_pc c (Returned refusal))
          | None => (st, at_pc c (AtCommit (amount data)))
          end
      end
  | AtCommit amt =>
      (redeem_transaction (call_now c) (call_user c) (call_code c) amt st,
       at_pc c (Returned (Success amt)))
  | Returned _ => (st, c)
  end.

(** A schedule names, step by step, the call that runs next. *)
Fixpoint interleave (sched : list nat) (st : db) (calls : list call)
    : db * list call :=
  match sched with
  | [] => (st, calls)
  | i :: sched' =>
      match calls !! i with
      | Some c =>
          let '(st', c') := advance c st in
          interleave sched' st' (<[i:=c']> calls)
      | None => interleave sched' st calls
      end
  end.

Definition results (calls : list call) : list pc := map call_pc calls.

(** ** The stores with calls of [redeem_code_db] under way

    Every other operation writes in one statement, or in one transaction,
    on a connection of its own: its write takes effect at once, and is the
    operation applied to the stores as they are at that moment.  A call of
    [redeem_code_db] is spread over its three pieces, and any operation and
    any piece of another call may run between two of them. *)

Record world := mk_world {
  store : db;
  pending : list call
}.

Definition init_world : world := mk_world init_db [].

(** [c] has not returned yet. *)
Definition running (c : call) : bool :=
  match call_pc c with
  | Returned _ => false
  | _ => true
  end.

(** [c] has passed its probe of [redeem_logs] and has not returned yet. *)
Definition past_probe (c : call) : bool :=
  match call_pc c with
  | AtFetch | AtCommit _ => true
  | _ => false
  end.

Definition same_claim (user_id : Z) (code : string) (c : call) : bool :=
  (call_user c =? user_id) && String.eqb (call_code c) code.

(** No call of [user_id] on [code] is under way. *)
Definition no_call_running (user_id : Z) (code : string) (calls : list call) : bool :=
  forallb (λ c, negb (running c && same_claim user_id code c)) calls.

(** What happens next: an operation runs from start to end, a call of
    [redeem_code_db] starts, or the call at position [i] runs up to its next
    await. *)
Inductive activity :=
| Whole (o : op)
| Begin (user_id : Z) (code : string) (now : Z)
| Resume (i : nat).

Definition perform (a : activity) (w : world) : world :=
  match a with
  | Whole o => mk_world (step o (store w)) (pending w)
  | Begin user_id code now =>
      mk_world (store w) (pending w ++ [new_call user_id code now])
  | Resume i =>
      match pending w !! i with
      | Some c =>
          let '(st', c') := advance c (store w) in
          mk_world st' (<[i:=c']> (pending w))
      | None => w
      end
  end.

Definition perform_all (acts : list activity) (w : world) : world :=
  fold_left (λ acc a, perform a acc) acts w.

(** The activities after which the counters still agree with the log: an
    operation that keeps the counters, and a call of [redeem_code_db] by an
    account that has no other call on the same code under way.  The pieces
    of a call that has started may run at any time. *)
Definition permitted (a : activity) (w : world) : Prop :=
  match a with
  | Whole o =>
      keeps_counters o (store w)
      ∧ match o with
        | RedeemCodeDb user_id code _ =>
            no_call_running user_id code (pending w) = true
        | _ => True
        end
  | Begin user_id code _ => no_call_running user_id code (pending w) = true
  | Resume _ => True
  end.

Fixpoint permitted_run (acts : list activity) (w : world) : Prop :=
  match acts with
  | [] => True
  | a :: rest => permitted a w ∧ permitted_run rest (perform a w)
  end.

(** What a permitted run maintains: the counters agree with the log, a call
    past its probe has no claim on record yet, and no two calls under way
    are by one account on one code. *)
Definition world_ok (w : world) : Prop :=
  uses_consistent (store w)
  ∧ (∀ i c, pending w !! i = Some c → past_probe c = true →
            has_claimed (call_user c) (call_code c) (store w) = false)
  ∧ (∀ i j ci cj,
       pending w !! i = Some ci → pending w !! j = Some cj →
       running ci = true → running cj = true →
       call_user ci = call_user cj → call_code ci = call_code cj → i = j).

(** ** Overlapping updates of [start_command]

    Every update is handled in a task of its own, and each [await] of a
    store function lets the other tasks run.  A call of [start_command] is
    cut at these awaits into six pieces: the ban probe, the read of
    [existing_user], the SELECT and the INSERT of [add_user], the bonus, and
    the stamp of [last_active]. *)

(** The scheduler of [interleave], for the calls of any handler. *)
Fixpoint interleave_with {State Call : Type} (piece : Call → State → State * Call)
    (sched : list nat) (s : State) (calls : list Call) : State * list Call :=
  match sched with
  | [] => (s, calls)
  | i :: sched' =>
      match calls !! i with
      | Some c =>
          let '(s', c') := piece c s in
          interleave_with piece sched' s' (<[i:=c']> calls)
      | None => interleave_with piece sched' s calls
      end
  end.

(** Where a call of [start_command] stands.  From the read of
    [existing_user] on it carries the [referrer_id] it computed.
    [StartRaised] is the call cut short by the IntegrityError of an INSERT
    on an id that has a row. *)
Inductive start_pc :=
| StartAtBan
| StartAtExisting
| StartAtSelect (referrer : option Z)
| StartAtInsert (referrer : option Z)
| StartAtBonus (referrer : option Z)
| StartAtStamp
| StartEnded
| StartRaised.

Record start_call := mk_start {
  start_user : Z;
  start_name : option string;
  start_payload : option Z;
  start_member : bool;
  start_now : Z;
  start_at : start_pc
}.

Definition new_start (user_id : Z) (uname : option string)
    (payload : option Z) (member : bool) (now : Z) : start_call :=
  mk_start user_id uname payload member now StartAtBan.

Definition start_goto (c : start_call) (p : start_pc) : start_call :=
  mk_start (start_user c) (start_name c) (start_payload c) (start_member c)
           (start_now c) p.

(** Run the call [c] of [start_command] up to its next await. *)
Definition start_piece (c : start_call) (st : db) : db * start_call :=
  match start_at c with
  | StartAtBan =>
      if is_user_banned (start_user c) st then (st, start_goto c StartEnded)
      else (st, start_goto c StartAtExisting)
  | StartAtExisting =>
      match get_user (start_user c) st with
      | Some _ => (st, start_goto c StartAtStamp)
      | None =>
          let referrer :=
            match start_payload c with
            | Some r => if r =? start_user c then None else Some r
            | None => None
            end in
          (st, start_goto c (StartAtSelect referrer))
      end
  | StartAtSelect referrer =>
      match users st !! start_user c with
      | Some _ => (st, start_goto c (StartAtBonus referrer))
      | None => (st, start_goto c (StartAtInsert referrer))
      end
  | StartAtInsert referrer =>
      match users st !! start_user c with
      | Some _ => (st, start_goto c StartRaised)
      | None =>
          (with_users (insert (start_user c)
                         (mk_user (start_name c) 5 (start_now c) referrer
                                  false 0 (start_now c))) st,
           start_goto c (StartAtBonus referrer))
      end
  | StartAtBonus referrer =>
      (match referrer with
       | Some r => if r =? 0 then st else update_credits r referral_bonus st
       | None => st
       end,
       start_goto c StartAtStamp)
  | StartAtStamp =>
      (if start_member c then update_last_active (start_user c) (start_now c) st
       else st,
       start_goto c StartEnded)
  | StartEnded | StartRaised => (st, c)
  end.

Definition interleave_start : list nat → db → list start_call → db * list start_call :=
  interleave_with start_piece.

(** ** Ledger events of one account *)

Inductive event :=
| Redemption (code : string) (now : Z)
| ReferralGrant
| Adjustment (delta : Z).

(** An entry of the replayed log: the credit delta and whether it came from a
    redeemed code. *)
Record entry := mk_entry { from_code : bool; delta : Z }.

Definition apply_event (user_id : Z) (ev : event) (st : db) : db * entry :=
  match ev with
  | Redemption code now =>
      match redeem_code_db now user_id code st with
      | (st', Success amt) => (st', mk_entry true amt)
      | (st', _) => (st', mk_entry true 0)
      end
  | ReferralGrant =>
      (update_credits user_id referral_bonus st, mk_entry false referral_bonus)
  | Adjustment d => (update_credits user_id d st, mk_entry false d)
  end.

Fixpoint play (user_id : Z) (evs : list event) (st : db) : db * list entry :=
  match evs with
  | [] => (st, [])
  | ev :: evs' =>
      let '(st1, e) := apply_event user_id ev st in
      let '(st2, es) := play user_id evs' st1 in
      (st2, e :: es)
  end.

Definition positive_sum (es : list entry) : Z :=
  fold_right (λ e acc, Z.max (delta e) 0 + acc) 0 es.

Definition negative_sum (es : list entry) : Z :=
  fold_right (λ e acc, Z.min (delta e) 0 + acc) 0 es.

(** What the code adds to [total_earned]: every redeemed amount, and the
    positive [update_credits] deltas. *)
Definition granted (es : list entry) : Z :=
  fold_right (λ e acc, (if from_code e then delta e else Z.max (delta e) 0) + acc) 0 es.

(** The result of the parser for a minute total. *)
Definition some_if_positive (n : Z) : option Z :=
  if n >? 0 then Some n else None.

(** ** Further queries and invariants of the ledger *)

(** The columns of the UNIQUE constraint of [redeem_logs]. *)
Definition log_key (l : log_row) : Z * string := (log_user l, log_code l).

(** No two rows of [redeem_logs] carry the same [(user_id, code)]. *)
Definition logs_unique (st : db) : Prop :=
  NoDup (map log_key (redeem_logs st)).

(** A counter is never negative and, once moved, never above its limit. *)
Definition uses_bounded (st : db) : Prop :=
  ∀ code c, redeem_codes st !! code = Some c →
            0 ≤ current_uses c
            ∧ (current_uses c ≤ max_uses c ∨ current_uses c = 0).

(** [get_user_redeem_history]: the [(code, claimed_date)] of the account's
    rows, in table order. *)
Definition get_user_redeem_history (user_id : Z) (st : db) : list (string * Z) :=
  map (λ l, (log_code l, claimed_date l))
      (List.filter (λ l, log_user l =? user_id) (redeem_logs st)).

(** ** Statistics: [get_bot_stats] *)

Record bot_stats := mk_stats {
  total_users : Z;
  active_users : Z;
  total_credits : Z;
  credits_distributed : Z
}.

(** [SELECT SUM(f) FROM users], read with Python's [or 0]: 0 on the empty
    table. *)
Definition sum_users (f : user_row → Z) (m : gmap Z user_row) : Z :=
  map_fold (λ _ u acc, f u + acc) 0 m.

(** Counting the rows with [credits > 0] is summing the indicator. *)
Definition has_credits (u : user_row) : Z := if credits u >? 0 then 1 else 0.

Definition get_bot_stats (st : db) : bot_stats :=
  mk_stats (Z.of_nat (size (users st)))
           (sum_users has_credits (users st))
           (sum_users credits (users st))
           (sum_users total_earned (users st)).

(** ** Configuration read from the environment *)

Record config := mk_config {
  OWNER_ID : Z;
  ADMIN_IDS : list Z
}.

Definition is_user_owner (cfg : config) (user_id : Z) : bool :=
  user_id =? OWNER_ID cfg.

(** ** Expired codes: [get_expired_codes], [clean_expired_cmd] and the expiry
    line of [list_codes_cmd] *)

(** The WHERE clause of [get_expired_codes].  SQLite takes [created_date] as
    written by [create_redeem_code] (the local wall clock of
    [datetime.now()]) and compares with its own clock [datetime('now')],
    which is UTC: [utc_now]. *)
Definition sql_expired (utc_now : Z) (c : code_row) : bool :=
  is_active c &&
  match expiry_minutes c with
  | Some m => (m >? 0) && (created_date c + minutes m <? utc_now)
  | None => false
  end.

(** The rows come in no stated order; the model lists them in the order of
    the map. *)
Definition get_expired_codes (utc_now : Z) (st : db) : list (string * code_row) :=
  List.filter (λ kv, sql_expired utc_now kv.2) (map_to_list (redeem_codes st)).

(** What [clean_expired_cmd] answers. *)
Inductive clean_reply :=
| NotOwner
| NothingExpired
| Cleaned (deleted : nat).

Definition clean_expired_cmd (cfg : config) (user_id : Z) (utc_now : Z)
    (st : db) : db * clean_reply :=
  if negb (is_user_owner cfg user_id) then (st, NotOwner)
  else
    let expired := get_expired_codes utc_now st in
    match expired with
    | [] => (st, NothingExpired)
    | _ =>
        (fold_left (λ acc code_data, delete_redeem_code code_data.1 acc) expired st,
         Cleaned (length expired))
    end.

(** The expiry line that [list_codes_cmd] prints for a row. *)
Inductive expiry_line :=
| NoExpiryLine
| ExpiredLine
| TimeLeftLine (hours mins : Z).

(** [time_left.seconds] is the seconds field of the [timedelta]: what is
    left after the whole days. *)
Definition list_codes_expiry (now : Z) (c : code_row) : expiry_line :=
  match expiry_minutes c with
  | Some m =>
      if m =? 0 then NoExpiryLine
      else
        let expiry_dt := created_date c + minutes m in
        if expiry_dt >? now then
          let seconds := (expiry_dt - now) mod 86400 in
          TimeLeftLine (seconds / 3600) ((seconds mod 3600) / 60)
        else ExpiredLine
  | None => NoExpiryLine
  end.

(** ** Admins, lookups and the charge for a lookup *)

(** A row of [admins] (key: [user_id]). *)
Record admin_row := mk_admin {
  admin_level : string;
  added_by : option Z;
  added_date : option string
}.

(** A row of [lookup_logs]. *)
Record lookup_row := mk_lookup {
  lookup_user : Z;
  lookup_api_type : string;
  lookup_input : string;
  lookup_result : string;
  lookup_date : Z
}.

(** The whole database: the ledger tables with [admins] and [lookup_logs]. *)
Record bot := mk_bot {
  ledger : db;
  admins : gmap Z admin_row;
  lookup_logs : list lookup_row
}.

Definition with_ledger (f : db → db) (s : bot) : bot :=
  mk_bot (f (ledger s)) (admins s) (lookup_logs s).

(** [add_admin]: INSERT OR REPLACE of [(user_id, level)]; the columns not
    named are NULL. *)
Definition add_admin (user_id : Z) (level : string) (s : bot) : bot :=
  mk_bot (ledger s) (<[user_id := mk_admin level None None]> (admins s))
         (lookup_logs s).

Definition remove_admin (user_id : Z) (s : bot) : bot :=
  mk_bot (ledger s) (delete user_id (admins s)) (lookup_logs s).

Definition is_admin (user_id : Z) (s : bot) : option string :=
  admin_level <$> admins s !! user_id.

Definition is_user_admin (cfg : config) (user_id : Z) (s : bot) : option string :=
  if user_id =? OWNER_ID cfg then Some "owner"
  else if existsb (Z.eqb user_id) (ADMIN_IDS cfg) then Some "admin"
  else is_admin user_id s.

(** The truth value Python gives to what [is_user_admin] returns. *)
Definition truthy (o : option string) : bool :=
  match o with
  | Some EmptyString | None => false
  | Some _ => true
  end.

(** [add_admin_cmd] and [remove_admin_cmd]; [arg] is [int(command.args)],
    [None] when that raised. *)
Definition add_admin_cmd (cfg : config) (caller : Z) (arg : option Z) (s : bot) : bot :=
  if negb (is_user_owner cfg caller) then s
  else
    match arg with
    | Some uid => add_admin uid "admin" s
    | None => s
    end.

Definition remove_admin_cmd (cfg : config) (caller : Z) (arg : option Z) (s : bot) : bot :=
  if negb (is_user_owner cfg caller) then s
  else
    match arg with
    | Some uid => if uid =? OWNER_ID cfg then s else remove_admin uid s
    | None => s
    end.

(** The loop of [main] over the static admins, run after [init_db]. *)
Definition register_static_admins (cfg : config) (s : bot) : bot :=
  fold_left (λ acc admin_id,
               if negb (admin_id =? OWNER_ID cfg) then add_admin admin_id "admin" acc
               else acc)
            (ADMIN_IDS cfg) s.

(** [log_lookup] keeps the first 500 characters of the input and the first
    1000 of the result. *)
Definition log_lookup (user_id : Z) (api_type input_data result : string)
    (now : Z) (s : bot) : bot :=
  mk_bot (ledger s) (admins s)
         (lookup_logs s ++ [mk_lookup user_id api_type
                              (substring 0 500 input_data)
                              (substring 0 1000 result) now]).

Definition get_total_lookups (s : bot) : Z := Z.of_nat (length (lookup_logs s)).

(** How [process_api_call] ends: it returns at once for a banned account,
    refuses for lack of credits, serves the lookup, or is cut short by an
    exception that nothing catches. *)
Inductive api_reply :=
| ApiIgnored
| ApiInsufficient
| ApiServed
| ApiRaised.

(** The writes of [process_api_call].  [formatted_json] is the text built
    from the answer of the lookup service (a failed request is caught and
    becomes an error text).  [shown] tells whether the two messages to the
    user went through; they are sent outside any [try], before the charge.
    [user[2]] on a missing row raises as well. *)
Definition process_api_call (cfg : config) (user_id : Z)
    (api_type input_data formatted_json : string) (shown : bool) (now : Z)
    (s : bot) : bot * api_reply :=
  if is_user_banned user_id (ledger s) then (s, ApiIgnored)
  else
    let user := get_user user_id (ledger s) in
    let admin_level := is_user_admin cfg user_id s in
    let refused :=
      if truthy admin_level then Some false
      else match user with
           | Some u => Some (credits u <? 1)
           | None => None
           end in
    match refused with
    | None => (s, ApiRaised)
    | Some true => (s, ApiInsufficient)
    | Some false =>
        if negb shown then (s, ApiRaised)
        else
          let s := if truthy admin_level then s
                   else with_ledger (update_credits user_id (-1)) s in
          let s := log_lookup user_id api_type input_data formatted_json now s in
          let s := with_ledger (update_last_active user_id now) s in
          (s, ApiServed)
    end.

(** ** Overlapping lookups: the pieces of [process_api_call]

    A call is cut at its awaits: the ban probe, the read of the account row,
    the read of the admin level with the balance test that follows it, the
    request to the lookup service with the two messages around it, the
    charge, the log row, and the stamp of [last_active]. *)

(** Where a call of [process_api_call] stands.  It carries the row it read
    and then the truth value of [admin_level]; the balance is not read
    again. *)
Inductive api_pc :=
| ApiAtBan
| ApiAtUser
| ApiAtAdmin (user : option user_row)
| ApiAtRequest (admin : bool)
| ApiAtCharge (admin : bool)
| ApiAtLog
| ApiAtStamp
| ApiEnded (r : api_reply).

Record api_call := mk_api {
  api_user : Z;
  api_type : string;
  api_input : string;
  api_result : string;
  api_shown : bool;
  api_now : Z;
  api_at : api_pc
}.

Definition new_api (user_id : Z) (type input_data formatted_json : string)
    (shown : bool) (now : Z) : api_call :=
  mk_api user_id type input_data formatted_json shown now ApiAtBan.

Definition api_goto (c : api_call) (p : api_pc) : api_call :=
  mk_api (api_user c) (api_type c) (api_input c) (api_result c) (api_shown c)
         (api_now c) p.

(** Run the call [c] of [process_api_call] up to its next await. *)
Definition api_piece (cfg : config) (c : api_call) (s : bot) : bot * api_call :=
  match api_at c with
  | ApiAtBan =>
      if is_user_banned (api_user c) (ledger s)
      then (s, api_goto c (ApiEnded ApiIgnored))
      else (s, api_goto c ApiAtUser)
  | ApiAtUser => (s, api_goto c (ApiAtAdmin (get_user (api_user c) (ledger s))))
  | ApiAtAdmin user =>
      let admin_level := is_user_admin cfg (api_user c) s in
      if truthy admin_level then (s, api_goto c (ApiAtRequest true))
      else
        match user with
        | None => (s, api_goto c (ApiEnded ApiRaised))
        | Some u =>
            if credits u <? 1 then (s, api_goto c (ApiEnded ApiInsufficient))
            else (s, api_goto c (ApiAtRequest false))
        end
  | ApiAtRequest admin =>
      if negb (api_shown c) then (s, api_goto c (ApiEnded ApiRaised))
      else (s, api_goto c (ApiAtCharge admin))
  | ApiAtCharge admin =>
      (if admin then s else with_ledger (update_credits (api_user c) (-1)) s,
       api_goto c ApiAtLog)
  | ApiAtLog =>
      (log_lookup (api_user c) (api_type c) (api_input c) (api_result c)
                  (api_now c) s,
       api_goto c ApiAtStamp)
  | ApiAtStamp =>
      (with_ledger (update_last_active (api_user c) (api_now c)) s,
       api_goto c (ApiEnded ApiServed))
  | ApiEnded _ => (s, c)
  end.

Definition interleave_api (cfg : config)
    : list nat → bot → list api_call → bot * list api_call :=
  interleave_with (api_piece cfg).

(** ** Paging of the user list: [users_list] and [users_pagination] *)

(** Where Python puts the bound [i] of a slice of a list of length [len]. *)
Definition slice_bound (len i : Z) : Z :=
  if i <? 0 then Z.max (i + len) 0 else Z.min i len.

(** The slice [l[a:b]]. *)
Definition slice {A} (l : list A) (a b : Z) : list A :=
  let len := Z.of_nat (length l) in
  let lo := slice_bound len a in
  let hi := slice_bound len b in
  take (Z.to_nat (hi - lo)) (drop (Z.to_nat lo) l).

Definition per_page : Z := 10.

Definition total_pages (users : list Z) : Z :=
  (Z.of_nat (length users) + per_page - 1) / per_page.

(** The ids printed on [page], out of the list [get_all_users] returned. *)
Definition users_page (users : list Z) (page : Z) : list Z :=
  let start_idx := (page - 1) * per_page in
  let end_idx := start_idx + per_page in
  slice users start_idx end_idx.

(** Whether the Next button is put under [page]. *)
Definition has_next (users : list Z) (page : Z) : bool := page <? total_pages users.

(** ** Texts the duration parser does not understand *)

(** The letter [u] occurs in [s]. *)
Fixpoint mentions (u : ascii) (s : string) : bool :=
  match s with
  | EmptyString => false
  | String c s' => Ascii.eqb c u || mentions u s'
  end.

(** ** Text inputs: the redeem branch of [handle_inputs] *)

(** [str.isspace] on one ASCII character. *)
Definition is_space (c : ascii) : bool :=
  let n := nat_of_ascii c in
  ((9 <=? n) && (n <=? 13) || (28 <=? n) && (n <=? 32))%nat.

Fixpoint lstrip (s : string) : string :=
  match s with
  | EmptyString => EmptyString
  | String c s' => if is_space c then lstrip s' else s
  end.

Fixpoint rstrip (s : string) : string :=
  match s with
  | EmptyString => EmptyString
  | String c s' =>
      match rstrip s' with
      | EmptyString => if is_space c then EmptyString else String c EmptyString
      | r => String c r
      end
  end.

(** [str.strip()] *)
Definition strip (s : string) : string := rstrip (lstrip s).

Definition upper_char (c : ascii) : ascii :=
  if ((97 <=? nat_of_ascii c) && (nat_of_ascii c <=? 122))%nat
  then ascii_of_nat (nat_of_ascii c - 32)
  else c.

(** [str.upper()] *)
Fixpoint upper (s : string) : string :=
  match s with
  | EmptyString => EmptyString
  | String c s' => String (upper_char c) (upper s')
  end.

(** The answers of the redeem branch; the success text carries the amount
    and the balance it announces. *)
Inductive redeem_message :=
| MsgRedeemed (amt new_balance : Z)
| MsgAlreadyClaimed
| MsgInvalid
| MsgInactive
| MsgLimitReached
| MsgExpired
| MsgError.

(** [handle_inputs] in the state that waits for a code: [None] when the
    sender is banned and the text is dropped. *)
Definition redeem_input (user_id : Z) (text : string) (now : Z) (st : db)
    : db * option redeem_message :=
  if is_user_banned user_id st then (st, None)
  else
    let code := upper (strip text) in
    let '(st1, result) := redeem_code_db now user_id code st in
    match result with
    | Success amt =>
        let new_balance :=
          match get_user user_id st1 with
          | Some user_data => credits user_data + amt
          | None => amt
          end in
        (st1, Some (MsgRedeemed amt new_balance))
    | AlreadyClaimed => (st1, Some MsgAlreadyClaimed)
    | InvalidCode => (st1, Some MsgInvalid)
    | Inactive => (st1, Some MsgInactive)
    | LimitReached => (st1, Some MsgLimitReached)
    | Expired => (st1, Some MsgExpired)
    | StoreError _ => (st1, Some MsgError)
    end.

(** ** Admin credit commands: [gift_credits] and [remove_credits] *)

(** [args] is the pair [int(args[0]), int(args[1])], [None] when the
    arguments are missing or not numbers. *)
Definition gift_credits (cfg : config) (caller : Z) (args : option (Z * Z))
    (s : bot) : bot :=
  if negb (truthy (is_user_admin cfg caller s)) then s
  else
    match args with
    | Some (uid, amt) => with_ledger (update_credits uid amt) s
    | None => s
    end.

Definition remove_credits (cfg : config) (caller : Z) (args : option (Z * Z))
    (s : bot) : bot :=
  if negb (truthy (is_user_admin cfg caller s)) then s
  else
    match args with
    | Some (uid, amt) => with_ledger (update_credits uid (- amt)) s
    | None => s
    end.

(** ** Profile figures: [get_user_stats] *)

(** 1 on a row whose [referrer_id] is [user_id]. *)
Definition referred_by (user_id : Z) (u : user_row) : Z :=
  match referrer_id u with
  | Some r => if r =? user_id then 1 else 0
  | None => 0
  end.

(** The number of rows of [users] with [referrer_id = user_id]. *)
Definition count_referrals (user_id : Z) (st : db) : Z :=
  sum_users (referred_by user_id) (users st).

(** [SUM(amount)] over the account's claims joined with the codes still
    stored; NULL when the join is empty. *)
Definition total_from_codes (user_id : Z) (st : db) : option Z :=
  let joined :=
    omap (λ l, if log_user l =? user_id
               then amount <$> redeem_codes st !! log_code l
               else None)
         (redeem_logs st) in
  match joined with
  | [] => None
  | _ => Some (fold_right Z.add 0 joined)
  end.

(** The row [(referrals, codes_claimed, total_from_codes)], or [None] for
    an id without a row in [users]. *)
Definition get_user_stats (user_id : Z) (st : db) : option (Z * Z * option Z) :=
  match users st !! user_id with
  | Some _ =>
      Some (count_referrals user_id st,
            Z.of_nat (length (List.filter (λ l, log_user l =? user_id) (redeem_logs st))),
            total_from_codes user_id st)
  | None => None
  end.

(** * Properties *)

(** ** Duration parser *)

Section DurationFacts.
Import Duration.

Lemma lower_char_digit c : is_digit c = true → lower_char c = c.
Proof.
  unfold is_digit, lower_char. intros H.
  apply andb_true_iff in H as [_ H]. apply Nat.leb_le in H.
  destruct (Nat.leb_spec 65 (nat_of_ascii c)) as [H65|_]; [lia | reflexivity].
Qed.

Lemma lower_app a b : lower (a +:+ b) = lower a +:+ lower b.
Proof. induction a as [|c a IH]; simpl; [reflexivity | by rewrite IH]. Qed.

Lemma lower_digits ds : all_digits ds = true → lower ds = ds.
Proof.
  induction ds as [|c ds IH]; simpl; [reflexivity|].
  intros [Hc Hds]%andb_true_iff. by rewrite lower_char_digit, IH.
Qed.

Lemma span_digits_run ds c rest :
  all_digits ds = true → is_digit c = false →
  span_digits (ds +:+ String c rest) = (ds, String c rest).
Proof.
  intros Hds Hc. induction ds as [|d ds IH]; simpl.
  - by rewrite Hc.
  - simpl in Hds. apply andb_true_iff in Hds as [Hd Hds].
    by rewrite Hd, IH.
Qed.

Lemma span_digits_all ds :
  all_digits ds = true → span_digits ds = (ds, EmptyString).
Proof.
  induction ds as [|d ds IH]; simpl; [reflexivity|].
  intros [Hd Hds]%andb_true_iff. by rewrite Hd, IH.
Qed.

Lemma match_here_run u ds c rest :
  all_digits ds = true → is_digit c = false →
  match_here u (ds +:+ String c rest) =
    match ds with
    | EmptyString => None
    | _ => if Ascii.eqb c u then Some ds else None
    end.
Proof.
  intros Hds Hc. unfold match_here. rewrite span_digits_run by done.
  by destruct ds.
Qed.

(** The search stops at a digit run that is followed by the unit letter. *)
Lemma re_search_hit u ds rest :
  ds ≠ EmptyString → all_digits ds = true → is_digit u = false →
  re_search u (ds +:+ String u rest) = Some ds.
Proof.
  intros Hne Hds Hu. destruct ds as [|d ds]; [done|].
  change (re_search u (String d ds +:+ String u rest))
    with (match match_here u (String d ds +:+ String u rest) with
          | Some g => Some g
          | None => re_search u (ds +:+ String u rest)
          end).
  rewrite match_here_run by done. by rewrite Ascii.eqb_refl.
Qed.

(** The search walks over a digit run that is followed by another letter. *)
Lemma re_search_skip u ds c rest :
  all_digits ds = true → is_digit c = false → c ≠ u →
  re_search u (ds +:+ String c rest) = re_search u rest.
Proof.
  intros Hds Hc Hcu. apply Ascii.eqb_neq in Hcu.
  induction ds as [|d ds IH].
  - change (re_search u (EmptyString +:+ String c rest))
      with (match match_here u (String c rest) with
            | Some g => Some g
            | None => re_search u rest
            end).
    unfold match_here. simpl. by rewrite Hc.
  - change (re_search u (String d ds +:+ String c rest))
      with (match match_here u (String d ds +:+ String c rest) with
            | Some g => Some g
            | None => re_search u (ds +:+ String c rest)
            end).
    rewrite match_here_run by done. rewrite Hcu.
    simpl in Hds. apply andb_true_iff in Hds as [_ Hds]. by apply IH.
Qed.

Lemma re_search_digits u ds : all_digits ds = true → re_search u ds = None.
Proof.
  induction ds as [|d ds IH]; intros Hds; [reflexivity|].
  change (re_search u (String d ds))
    with (match match_here u (String d ds) with
          | Some g => Some g
          | None => re_search u ds
          end).
  unfold match_here. rewrite span_digits_all by done.
  simpl in Hds. apply andb_true_iff in Hds as [_ Hds]. by apply IH.
Qed.

Lemma re_search_empty u : re_search u EmptyString = None.
Proof. reflexivity. Qed.

(** A text that starts with a digit is neither empty nor the token none. *)
Lemma digit_head_kept d s :
  is_digit d = true →
  String.eqb (String d s) "" || String.eqb (lower (String d s)) "none" = false.
Proof.
  intros Hd. simpl. rewrite (lower_char_digit d Hd).
  destruct (Ascii.eqb_spec d "n") as [->|_]; [discriminate Hd | reflexivity].
Qed.

(** The parser on a text [s] that is kept (not empty, not none) and already
    lower case. *)
Lemma parse_kept s :
  String.eqb s "" || String.eqb (lower s) "none" = false → lower s = s →
  parse_time_string (Some s) =
    let h := re_search "h" s in
    let m := re_search "m" s in
    some_if_positive
      (if negb (is_some h) && negb (is_some m) && isdigit s then int s
       else match m with
            | Some g => match h with Some g' => 0 + int g' * 60 | None => 0 end + int g
            | None => match h with Some g' => 0 + int g' * 60 | None => 0 end
            end).
Proof.
  intros Hk Hl. unfold parse_time_string. rewrite Hk, Hl. reflexivity.
Qed.

Lemma kept_digit_head ds rest :
  ds ≠ EmptyString → all_digits ds = true →
  String.eqb (ds +:+ rest) "" || String.eqb (lower (ds +:+ rest)) "none" = false.
Proof.
  intros Hne Hds. destruct ds as [|d ds]; [done|].
  simpl in Hds. apply andb_true_iff in Hds as [Hd _].
  exact (digit_head_kept d (ds +:+ rest) Hd).
Qed.

Lemma lower_digits_then ds rest :
  all_digits ds = true → lower rest = rest → lower (ds +:+ rest) = ds +:+ rest.
Proof. intros Hds Hr. by rewrite lower_app, lower_digits, Hr. Qed.

Lemma isdigit_all ds : ds ≠ EmptyString → all_digits ds = true → isdigit ds = true.
Proof. intros Hne Hds. by destruct ds. Qed.

Lemma parse_result_positive s n : parse_time_string s = Some n → 0 < n.
Proof.
  destruct s as [raw|]; [|done]. unfold parse_time_string.
  destruct (_ || _); [done|]. cbv zeta.
  match goal with
  | |- (if ?t >? 0 then _ else _) = _ → _ => destruct (Z.gtb_spec t 0)
  end; [|done].
  intros [= <-]. lia.
Qed.

Lemma parse_none_token s : lower s = "none" → parse_time_string (Some s) = None.
Proof.
  intros H. unfold parse_time_string. rewrite H.
  by rewrite orb_true_r.
Qed.

(** C9: [parse_time_string] follows the grammar.  For digit strings [hs] and
    [ms], the texts [hs h ms m] and [ms m hs h] give 60 * hs + ms minutes,
    [hs h] gives 60 * hs, [ms m] and the bare number [ms] give ms; the result
    is absent when that total is zero.  Absent, empty and any spelling of none
    give absent, as do "abc" and "0"; no input gives a total that is not
    positive.  The examples of the specification evaluate as stated. *)
Theorem parse_time_string_grammar (hs ms : string)
    (Hh : hs ≠ EmptyString) (Hm : ms ≠ EmptyString)
    (Hhd : all_digits hs = true) (Hmd : all_digits ms = true) :
  parse_time_string (Some (hs +:+ "h" +:+ ms +:+ "m"))
    = some_if_positive (int hs * 60 + int ms)
  ∧ parse_time_string (Some (ms +:+ "m" +:+ hs +:+ "h"))
    = some_if_positive (int hs * 60 + int ms)
  ∧ parse_time_string (Some (hs +:+ "h")) = some_if_positive (int hs * 60)
  ∧ parse_time_string (Some (ms +:+ "m")) = some_if_positive (int ms)
  ∧ parse_time_string (Some ms) = some_if_positive (int ms)
  ∧ parse_time_string None = None
  ∧ parse_time_string (Some "") = None
  ∧ (∀ s, lower s = "none" → parse_time_string (Some s) = None)
  ∧ (∀ s n, parse_time_string s = Some n → 0 < n)
  ∧ parse_time_string (Some "1h30m") = Some 90
  ∧ parse_time_string (Some "2h") = Some 120
  ∧ parse_time_string (Some "45m") = Some 45
  ∧ parse_time_string (Some "90") = Some 90
  ∧ parse_time_string (Some "none") = None
  ∧ parse_time_string (Some "NONE") = None
  ∧ parse_time_string (Some "abc") = None
  ∧ parse_time_string (Some "0") = None.
Proof.
  assert (Hlh : ∀ r, lower r = r → lower (String "h" r) = String "h" r)
    by (intros r Hr; simpl; by rewrite Hr).
  assert (Hlm : ∀ r, lower r = r → lower (String "m" r) = String "m" r)
    by (intros r Hr; simpl; by rewrite Hr).
  repeat split; try reflexivity.
  - change (hs +:+ "h" +:+ ms +:+ "m") with (hs +:+ String "h" (ms +:+ String "m" "")).
    rewrite parse_kept.
    2: by apply kept_digit_head.
    2: { apply lower_digits_then; [done|]. apply Hlh.
         apply lower_digits_then; [done|]. by apply Hlm. }
    cbv zeta. rewrite re_search_hit by done.
    rewrite re_search_skip by done.
    rewrite re_search_hit by done. simpl. f_equal.
  - change (ms +:+ "m" +:+ hs +:+ "h") with (ms +:+ String "m" (hs +:+ String "h" "")).
    rewrite parse_kept.
    2: by apply kept_digit_head.
    2: { apply lower_digits_then; [done|]. apply Hlm.
         apply lower_digits_then; [done|]. by apply Hlh. }
    cbv zeta.
    rewrite (re_search_hit "m") by done.
    rewrite re_search_skip by done.
    rewrite re_search_hit by done. simpl. f_equal.
  - change (hs +:+ "h") with (hs +:+ String "h" "").
    rewrite parse_kept.
    2: by apply kept_digit_head.
    2: { apply lower_digits_then; [done|]. by apply Hlh. }
    cbv zeta.
    rewrite (re_search_hit "h") by done.
    rewrite re_search_skip by done.
    rewrite re_search_empty. simpl. f_equal.
  - change (ms +:+ "m") with (ms +:+ String "m" "").
    rewrite parse_kept.
    2: by apply kept_digit_head.
    2: { apply lower_digits_then; [done|]. by apply Hlm. }
    cbv zeta.
    rewrite (re_search_hit "m") by done.
    rewrite re_search_skip by done.
    rewrite re_search_empty. simpl. f_equal.
  - rewrite parse_kept.
    2: { destruct ms as [|d r]; [done|]. simpl in Hmd.
         apply andb_true_iff in Hmd as [Hd _]. by apply digit_head_kept. }
    2: by apply lower_digits.
    cbv zeta. rewrite !re_search_digits by done.
    rewrite isdigit_all by done. reflexivity.
  - apply parse_none_token.
  - apply parse_result_positive.
Qed.

Lemma parse_time_string_grammar_witness :
  Duration.parse_time_string (Some "12h05m") = some_if_positive (12 * 60 + 5)
  ∧ Duration.parse_time_string (Some "05m12h") = some_if_positive (12 * 60 + 5).
Proof.
  pose proof (parse_time_string_grammar "12" "05") as H.
  destruct H as (H1 & H2 & _); [done | done | reflexivity | reflexivity |].
  split; [exact H1 | exact H2].
Defined.

End DurationFacts.

(** ** Account store *)

Section Accounts.

Implicit Types (st : db) (u : user_row).

Lemma update_credits_lookup st uid d :
  users (update_credits uid d st) !! uid =
    (λ u, if d >? 0 then add_total_earned d (add_credits d u) else add_credits d u)
      <$> users st !! uid.
Proof.
  unfold update_credits. destruct (d >? 0); simpl; by rewrite lookup_alter_eq.
Qed.

Lemma update_credits_lookup_ne st uid uid' d :
  uid ≠ uid' → users (update_credits uid d st) !! uid' = users st !! uid'.
Proof.
  intros Hne. unfold update_credits.
  destruct (d >? 0); simpl; by rewrite lookup_alter_ne.
Qed.

Lemma update_credits_codes st uid d :
  redeem_codes (update_credits uid d st) = redeem_codes st.
Proof. unfold update_credits. by destruct (d >? 0). Qed.

Lemma update_credits_logs st uid d :
  redeem_logs (update_credits uid d st) = redeem_logs st.
Proof. unfold update_credits. by destruct (d >? 0). Qed.

Lemma add_user_existing st uid n r t :
  is_Some (users st !! uid) → add_user uid n r t st = st.
Proof. intros [u Hu]. unfold add_user. by rewrite Hu. Qed.

Lemma add_user_new st uid n r t :
  users st !! uid = None →
  users (add_user uid n r t st) = <[uid := mk_user n 5 t r false 0 t]> (users st).
Proof. intros Hu. unfold add_user. by rewrite Hu. Qed.

(** C8: [update_credits] moves the balance by exactly [d]; [total_earned]
    grows by [d] when [d] is positive and is untouched otherwise, so it never
    goes down.  Codes, claims and the other accounts are left as they were. *)
Theorem update_credits_delta st uid d u (Hu : users st !! uid = Some u) :
  ∃ u', users (update_credits uid d st) !! uid = Some u'
        ∧ credits u' = credits u + d
        ∧ total_earned u' = (if d >? 0 then total_earned u + d else total_earned u)
        ∧ total_earned u ≤ total_earned u'
        ∧ (∀ other, other ≠ uid →
             users (update_credits uid d st) !! other = users st !! other)
        ∧ redeem_codes (update_credits uid d st) = redeem_codes st
        ∧ redeem_logs (update_credits uid d st) = redeem_logs st.
Proof.
  rewrite update_credits_lookup, Hu. simpl.
  eexists; split; [reflexivity|].
  destruct (Z.gtb_spec d 0); simpl; repeat split; try lia;
    auto using update_credits_codes, update_credits_logs;
    intros other Hne; by apply update_credits_lookup_ne.
Qed.

Lemma update_credits_delta_witness :
  ∃ u', users (update_credits 1 (-2) (add_user 1 None None 0 init_db)) !! 1 = Some u'
        ∧ credits u' = 3 ∧ total_earned u' = 0.
Proof.
  destruct (update_credits_delta (add_user 1 None None 0 init_db) 1 (-2)
              (mk_user None 5 0 None false 0 0) eq_refl)
    as (u' & H1 & H2 & H3 & _).
  exists u'. repeat split; assumption.
Defined.

(** C10: registering an id that is not in [users] stores a row with 5
    credits and [total_earned] 0, so the balance of a fresh account is 5
    above its recorded grants. *)
Theorem add_user_signup_grant st uid n r t (Hnew : users st !! uid = None) :
  ∃ u, users (add_user uid n r t st) !! uid = Some u
       ∧ credits u = 5
       ∧ total_earned u = 0
       ∧ credits u - total_earned u = 5.
Proof.
  rewrite add_user_new by done. rewrite lookup_insert_eq.
  eexists; split; [reflexivity|]. by simpl.
Qed.

Lemma add_user_signup_grant_witness :
  ∃ u, users (add_user 7 (Some "ann") None 100 init_db) !! 7 = Some u
       ∧ credits u = 5 ∧ total_earned u = 0 ∧ credits u - total_earned u = 5.
Proof. apply (add_user_signup_grant init_db 7 (Some "ann") None 100). reflexivity. Defined.

Lemma update_last_active_lookup_ne st uid uid' t :
  uid ≠ uid' → users (update_last_active uid t st) !! uid' = users st !! uid'.
Proof. intros Hne. unfold update_last_active. simpl. by rewrite lookup_alter_ne. Qed.

Lemma update_last_active_lookup st uid t :
  users (update_last_active uid t st) !! uid
  = set_last_active t <$> users st !! uid.
Proof. unfold update_last_active. simpl. by rewrite lookup_alter_eq. Qed.

Lemma update_last_active_credits st uid uid' t :
  credits <$> users (update_last_active uid t st) !! uid'
  = credits <$> users st !! uid'.
Proof.
  unfold update_last_active. simpl.
  destruct (decide (uid = uid')) as [->|Hne].
  - rewrite lookup_alter_eq. by destruct (users st !! uid').
  - by rewrite lookup_alter_ne.
Qed.

(** For an account that exists, [start_command] at most stamps its
    [last_active]. *)
Lemma start_command_existing st uid n p member t :
  is_Some (users st !! uid) →
  start_command uid n p member t st = st
  ∨ start_command uid n p member t st = update_last_active uid t st.
Proof.
  intros [u Hu]. unfold start_command, is_user_banned, get_user. rewrite Hu.
  destruct (is_banned u); [by left|]. destruct member; [by right | by left].
Qed.

(** The first [start_command] of a new account that comes through the link
    of [r]. *)
Lemma start_command_referred st uid n r member t :
  users st !! uid = None → r ≠ uid → r ≠ 0 →
  start_command uid n (Some r) member t st
  = let st1 := update_credits r referral_bonus (add_user uid n (Some r) t st) in
    if member then update_last_active uid t st1 else st1.
Proof.
  intros Hnew Hself Hnz. unfold start_command, is_user_banned, get_user.
  rewrite Hnew. destruct (Z.eqb_spec r uid); [done|].
  by destruct (Z.eqb_spec r 0).
Qed.

(** Updates handled one after another: [add_user] on an id that exists
    changes nothing; the first [start_command] of a new account through the
    link of an existing referrer [r], with [r] different from the new id and
    from 0, stores the new row with that referrer and 5 credits and adds 3
    to the referrer's balance and [total_earned]; any later [start_command]
    of the same account, started after the first has ended, leaves the
    referrer's row, every balance, the codes and the claims as they are. *)
Theorem referral_bonus_once st uid n member t r ref_row
    (Hnew : users st !! uid = None) (Hself : r ≠ uid) (Hnz : r ≠ 0)
    (Href : users st !! r = Some ref_row) :
  let st1 := start_command uid n (Some r) member t st in
  (∀ st' uid' n' r' t',
     is_Some (users st' !! uid') → add_user uid' n' r' t' st' = st')
  ∧ (∃ new, users st1 !! uid = Some new
            ∧ referrer_id new = Some r ∧ credits new = 5)
  ∧ (∃ ref', users st1 !! r = Some ref'
             ∧ credits ref' = credits ref_row + 3
             ∧ total_earned ref' = total_earned ref_row + 3)
  ∧ (∀ n' p' member' t',
       let st2 := start_command uid n' p' member' t' st1 in
       users st2 !! r = users st1 !! r
       ∧ (∀ other, credits <$> users st2 !! other = credits <$> users st1 !! other)
       ∧ redeem_codes st2 = redeem_codes st1
       ∧ redeem_logs st2 = redeem_logs st1)
  ∧ (∀ n' r' t', add_user uid n' r' t' st1 = st1).
Proof.
  cbv zeta. rewrite start_command_referred by done. cbv zeta.
  set (st0 := update_credits r referral_bonus (add_user uid n (Some r) t st)).
  assert (Hin0 : users st0 !! uid = Some (mk_user n 5 t (Some r) false 0 t)).
  { unfold st0. rewrite update_credits_lookup_ne by done.
    rewrite add_user_new by done. apply lookup_insert_eq. }
  assert (Href0 : users st0 !! r
                  = Some (add_total_earned 3 (add_credits 3 ref_row))).
  { unfold st0. rewrite update_credits_lookup, add_user_new by done.
    rewrite lookup_insert_ne by done. by rewrite Href. }
  set (st1 := if member then update_last_active uid t st0 else st0).
  assert (Hin1 : ∃ new, users st1 !! uid = Some new
                        ∧ referrer_id new = Some r ∧ credits new = 5).
  { unfold st1. destruct member.
    - rewrite update_last_active_lookup, Hin0. simpl.
      eexists; split; [reflexivity | by simpl].
    - eexists; split; [exact Hin0 | by simpl]. }
  assert (Href1 : users st1 !! r = users st0 !! r).
  { unfold st1. destruct member; [|done]. by apply update_last_active_lookup_ne. }
  split; [intros; by apply add_user_existing|].
  split; [exact Hin1|].
  split; [rewrite Href1, Href0; eexists; split; [reflexivity | by simpl]|].
  destruct Hin1 as (new & Hnew1 & _).
  split.
  - intros n' p' member' t'.
    destruct (start_command_existing st1 uid n' p' member' t') as [->| ->];
      [by rewrite Hnew1 | done |].
    split; [by apply update_last_active_lookup_ne|].
    split; [intros other; apply update_last_active_credits | done].
  - intros n' r' t'. apply add_user_existing. by rewrite Hnew1.
Qed.

Lemma referral_bonus_once_witness :
  let st := add_user 4 None None 0 init_db in
  ∃ ref', users (start_command 7 None (Some 4) true 1 st) !! 4 = Some ref'
          ∧ credits ref' = 5 + 3.
Proof.
  destruct (referral_bonus_once (add_user 4 None None 0 init_db) 7 None true 1 4
              (mk_user None 5 0 None false 0 0))
    as (_ & _ & (ref' & H1 & H2 & _) & _);
    [reflexivity | lia | lia | reflexivity |].
  exists ref'. split; [exact H1 | exact H2].
Defined.

(** One step of the scheduler on two calls. *)
Lemma interleave_with_first {State Call : Type} (piece : Call → State → State * Call)
    sched s c0 c1 :
  interleave_with piece (0%nat :: sched) s [c0; c1]
  = interleave_with piece sched (fst (piece c0 s)) [snd (piece c0 s); c1].
Proof. simpl. by destruct (piece c0 s). Qed.

Lemma interleave_with_second {State Call : Type} (piece : Call → State → State * Call)
    sched s c0 c1 :
  interleave_with piece (1%nat :: sched) s [c0; c1]
  = interleave_with piece sched (fst (piece c1 s)) [c0; snd (piece c1 s)].
Proof. simpl. by destruct (piece c1 s). Qed.

Lemma interleave_with_only {State Call : Type} (piece : Call → State → State * Call)
    sched s c0 :
  interleave_with piece (0%nat :: sched) s [c0]
  = interleave_with piece sched (fst (piece c0 s)) [snd (piece c0 s)].
Proof. simpl. by destruct (piece c0 s). Qed.

(** A call of [start_command] that runs with nothing in between does what
    [start_command] does, and never meets the IntegrityError. *)
Lemma start_alone_is_start_command st uid n p member t :
  interleave_start [0; 0; 0; 0; 0; 0]%nat st [new_start uid n p member t]
  = (start_command uid n p member t st, [mk_start uid n p member t StartEnded]).
Proof.
  unfold interleave_start, start_command, new_start, is_user_banned, get_user.
  simpl. unfold start_piece at 1. unfold is_user_banned, get_user. simpl.
  destruct (users st !! uid) as [u|] eqn:Hu.
  - destruct (is_banned u); [reflexivity|]. simpl.
    unfold start_piece at 1. unfold get_user. simpl. rewrite Hu. simpl.
    reflexivity.
  - simpl. unfold start_piece at 1. unfold get_user. simpl. rewrite Hu. simpl.
    unfold start_piece at 1. simpl. rewrite Hu. simpl.
    unfold start_piece at 1. simpl. rewrite Hu. simpl.
    unfold add_user. rewrite Hu. reflexivity.
Qed.

(** Run the next piece of the schedule of two calls of [start_command]. *)
Ltac start_step :=
  first [rewrite interleave_with_first | rewrite interleave_with_second];
  unfold start_piece, is_user_banned, get_user;
  cbn [start_at start_user start_name start_payload start_member start_now
       start_goto fst snd].

(** C7: the bonus is not paid exactly once when two updates of one new
    account overlap.  Account [uid] has no row and sends [/start ref_<r>]
    twice; both calls read [existing_user] before either has called
    [add_user].  The INSERT of the first stores the row, the SELECT of the
    second finds it and [add_user] returns, and both calls go on to
    [update_credits(referrer_id, 3)]: the referrer is credited 6 for one new
    account.  Handled one after the other, the same two updates credit 3. *)
Theorem overlapping_start_pays_twice st uid n1 n2 m1 m2 t1 t2 r ref_row
    (Hnew : users st !! uid = None) (Hself : r ≠ uid) (Hnz : r ≠ 0)
    (Href : users st !! r = Some ref_row) :
  let calls := [new_start uid n1 (Some r) m1 t1; new_start uid n2 (Some r) m2 t2] in
  let overlapping :=
    interleave_start [0; 0; 1; 1; 0; 0; 0; 0; 1; 1; 1]%nat st calls in
  let serial :=
    interleave_start [0; 0; 0; 0; 0; 0; 1; 1; 1; 1; 1; 1]%nat st calls in
  (map start_at (snd overlapping) = [StartEnded; StartEnded]
   ∧ (∃ new, users (fst overlapping) !! uid = Some new
             ∧ referrer_id new = Some r ∧ credits new = 5)
   ∧ ∃ ref', users (fst overlapping) !! r = Some ref'
             ∧ credits ref' = credits ref_row + 6
             ∧ total_earned ref' = total_earned ref_row + 6)
  ∧ (map start_at (snd serial) = [StartEnded; StartEnded]
     ∧ fst serial
       = start_command uid n2 (Some r) m2 t2
           (start_command uid n1 (Some r) m1 t1 st)
     ∧ ∃ ref', users (fst serial) !! r = Some ref'
               ∧ credits ref' = credits ref_row + 3
               ∧ total_earned ref' = total_earned ref_row + 3).
Proof.
  assert (Hr : (r =? uid) = false) by by apply Z.eqb_neq.
  assert (Hz : (r =? 0) = false) by by apply Z.eqb_neq.
  (* the stores after the INSERT, the bonus and the stamp of the first call *)
  remember (with_users (insert uid (mk_user n1 5 t1 (Some r) false 0 t1)) st)
    as st1 eqn:Hst1.
  remember (update_credits r referral_bonus st1) as st2 eqn:Hst2.
  remember (if m1 then update_last_active uid t1 st2 else st2) as st3 eqn:Hst3.
  assert (Hu1 : users st1 !! uid = Some (mk_user n1 5 t1 (Some r) false 0 t1)).
  { rewrite Hst1. simpl. apply lookup_insert_eq. }
  assert (Hr1 : users st1 !! r = Some ref_row).
  { rewrite Hst1. simpl. by rewrite lookup_insert_ne. }
  assert (Hu2 : users st2 !! uid = users st1 !! uid).
  { rewrite Hst2. by apply update_credits_lookup_ne. }
  assert (Hr2 : users st2 !! r = Some (add_total_earned 3 (add_credits 3 ref_row))).
  { rewrite Hst2, update_credits_lookup, Hr1. done. }
  assert (Hu3 : ∃ new, users st3 !! uid = Some new
                       ∧ referrer_id new = Some r ∧ credits new = 5
                       ∧ is_banned new = false).
  { rewrite Hst3. destruct m1.
    - rewrite update_last_active_lookup, Hu2, Hu1. simpl.
      eexists; split; [reflexivity | by simpl].
    - rewrite Hu2, Hu1. eexists; split; [reflexivity | by simpl]. }
  assert (Hr3 : users st3 !! r = users st2 !! r).
  { rewrite Hst3. destruct m1; [|done]. by apply update_last_active_lookup_ne. }
  destruct Hu3 as (new & Hu3 & Hnr & Hnc & Hnb).
  assert (Hstamp : ∀ st', users (if m2 then update_last_active uid t2 st' else st') !! r
                          = users st' !! r).
  { intros st'. destruct m2; [|done]. by apply update_last_active_lookup_ne. }
  cbv zeta. split.
  - unfold interleave_start, new_start.
    (* both calls probe the ban flag and read [existing_user] *)
    start_step. rewrite Hnew. cbn [fst snd].
    start_step. rewrite Hnew, Hr. cbn [fst snd].
    start_step. rewrite Hnew. cbn [fst snd].
    start_step. rewrite Hnew, Hr. cbn [fst snd].
    (* the first call: SELECT, INSERT, bonus, stamp *)
    start_step. rewrite Hnew. cbn [fst snd].
    start_step. rewrite Hnew. cbn [fst snd]. rewrite <- Hst1.
    start_step. rewrite Hz, <- Hst2.
    start_step. rewrite <- Hst3.
    (* the second call: its SELECT finds the row, then bonus and stamp *)
    start_step. rewrite Hu3. cbn [fst snd].
    start_step. rewrite Hz.
    remember (update_credits r referral_bonus st3) as st4 eqn:Hst4.
    start_step.
    cbn [interleave_with fst snd map start_at].
    split; [reflexivity|].
    assert (Hu4 : users st4 !! uid = Some new).
    { rewrite Hst4, update_credits_lookup_ne by done. exact Hu3. }
    assert (Hr4 : users st4 !! r
                  = Some (add_total_earned 3 (add_credits 3
                            (add_total_earned 3 (add_credits 3 ref_row))))).
    { rewrite Hst4, update_credits_lookup, Hr3, Hr2. done. }
    split.
    + destruct m2.
      * rewrite update_last_active_lookup, Hu4. simpl.
        eexists; split; [reflexivity | by simpl].
      * eexists; split; [exact Hu4 | done].
    + rewrite Hstamp, Hr4. eexists; split; [reflexivity|]. simpl. lia.
  - unfold interleave_start, new_start.
    (* the first call from start to end *)
    start_step. rewrite Hnew. cbn [fst snd].
    start_step. rewrite Hnew, Hr. cbn [fst snd].
    start_step. rewrite Hnew. cbn [fst snd].
    start_step. rewrite Hnew. cbn [fst snd]. rewrite <- Hst1.
    start_step. rewrite Hz, <- Hst2.
    start_step. rewrite <- Hst3.
    (* the second call finds the row at its read of [existing_user] *)
    start_step. rewrite Hu3, Hnb. cbn [fst snd].
    start_step. rewrite Hu3. cbn [fst snd].
    start_step. start_step. start_step. start_step.
    cbn [interleave_with fst snd map start_at].
    split; [reflexivity|].
    assert (Hfirst : start_command uid n1 (Some r) m1 t1 st = st3).
    { rewrite start_command_referred by done. cbv zeta.
      unfold add_user. rewrite Hnew. cbv zeta. by rewrite <- Hst1, <- Hst2. }
    split.
    + rewrite Hfirst. unfold start_command, is_user_banned, get_user.
      by rewrite Hu3, Hnb.
    + rewrite Hstamp, Hr3, Hr2. eexists; split; [reflexivity | by simpl].
Qed.

Lemma overlapping_start_pays_twice_witness :
  let st := add_user 4 None None 0 init_db in
  let overlapping :=
    interleave_start [0; 0; 1; 1; 0; 0; 0; 0; 1; 1; 1]%nat st
      [new_start 7 None (Some 4) true 1; new_start 7 None (Some 4) true 2] in
  map start_at (snd overlapping) = [StartEnded; StartEnded]
  ∧ ∃ ref', users (fst overlapping) !! 4 = Some ref' ∧ credits ref' = 5 + 6.
Proof.
  destruct (overlapping_start_pays_twice (add_user 4 None None 0 init_db) 7
              None None true true 1 2 4 (mk_user None 5 0 None false 0 0))
    as [(Hends & _ & ref' & Hrow & Hpaid & _) _];
    [reflexivity | lia | lia | reflexivity |].
  split; [exact Hends|]. exists ref'. split; [exact Hrow | exact Hpaid].
Defined.

(** When both calls pass the SELECT of [add_user] before either INSERT, the
    second INSERT meets the row of the first and raises: that call ends
    before its bonus, and the referrer is credited once. *)
Example overlapping_insert_raises :
  let st := add_user 4 None None 0 init_db in
  let r := interleave_start [0; 0; 0; 1; 1; 1; 0; 1; 0; 0; 1]%nat st
             [new_start 7 None (Some 4) true 1; new_start 7 None (Some 4) true 2] in
  map start_at (snd r) = [StartEnded; StartRaised]
  ∧ credits <$> users (fst r) !! 4 = Some 8.
Proof. split; reflexivity. Qed.

End Accounts.

(** ** Redemption engine *)

Section Redemption.

Implicit Types (st : db) (c : code_row) (u : user_row).

Lemma redeem_transaction_users now uid code amt st :
  users (redeem_transaction now uid code amt st)
  = alter (add_total_earned amt) uid (alter (add_credits amt) uid (users st)).
Proof. reflexivity. Qed.

Lemma redeem_transaction_codes now uid code amt st :
  redeem_codes (redeem_transaction now uid code amt st)
  = alter incr_uses code (redeem_codes st).
Proof. reflexivity. Qed.

Lemma redeem_transaction_logs now uid code amt st :
  redeem_logs (redeem_transaction now uid code amt st)
  = insert_log_or_ignore (mk_log uid code now) (redeem_logs st).
Proof. reflexivity. Qed.

Lemma log_matches_self uid code now : log_matches uid code (mk_log uid code now) = true.
Proof. unfold log_matches. simpl. by rewrite Z.eqb_refl, String.eqb_refl. Qed.

(** After the transaction the claim is on record. *)
Lemma has_claimed_after_transaction now uid code amt st :
  has_claimed uid code (redeem_transaction now uid code amt st) = true.
Proof.
  unfold has_claimed. rewrite redeem_transaction_logs.
  unfold insert_log_or_ignore. simpl.
  destruct (existsb (log_matches uid code) (redeem_logs st)) eqn:E; [done|].
  rewrite existsb_app. simpl. by rewrite log_matches_self, orb_true_r.
Qed.

(** The probe of [redeem_logs] answers first and leaves the stores alone. *)
Lemma redeem_already_claimed now uid code st :
  has_claimed uid code st = true →
  redeem_code_db now uid code st = (st, AlreadyClaimed).
Proof. intros H. unfold redeem_code_db. by rewrite H. Qed.

(** A successful call ran the transaction, on a row that passed the checks. *)
Lemma redeem_success_inv now uid code st st1 amt :
  redeem_code_db now uid code st = (st1, Success amt) →
  has_claimed uid code st = false
  ∧ ∃ c, redeem_codes st !! code = Some c
         ∧ amount c = amt
         ∧ redeem_checks now c = None
         ∧ st1 = redeem_transaction now uid code amt st.
Proof.
  unfold redeem_code_db.
  destruct (has_claimed uid code st); [done|].
  destruct (redeem_codes st !! code) as [c|]; [|done].
  destruct (redeem_checks now c) as [r|] eqn:Hc.
  - intros [= <- ->]. unfold redeem_checks in Hc.
    repeat match type of Hc with
           | (if ?b then _ else _) = _ => destruct b
           end; done.
  - intros [= <- <-]. eauto 10.
Qed.

(** A refused call leaves the stores alone. *)
Lemma redeem_refused_unchanged now uid code st st1 o :
  redeem_code_db now uid code st = (st1, o) →
  (∀ amt, o ≠ Success amt) → st1 = st.
Proof.
  unfold redeem_code_db.
  destruct (has_claimed uid code st); [by intros [= <- _]|].
  destruct (redeem_codes st !! code) as [c|]; [|by intros [= <- _]].
  destruct (redeem_checks now c); [by intros [= <- _]|].
  intros [= _ <-] H. by destruct (H (amount c)).
Qed.

Lemma redeem_many_claimed nows uid code st :
  has_claimed uid code st = true →
  redeem_many nows uid code st = (st, repeat AlreadyClaimed (length nows)).
Proof.
  intros H. induction nows as [|t ts IH]; simpl; [done|].
  by rewrite redeem_already_claimed, IH.
Qed.

(** C3: when a first call returns the amount, the code row carried that
    amount, the account's balance is up by exactly it, and every further call
    by the same account on the same code, at any later times, returns
    already-claimed and leaves all three stores as the first call left them;
    so the balance stays at one amount above where it started. *)
Theorem redeem_same_code_again st st1 uid code t0 amt u
    (Hfirst : redeem_code_db t0 uid code st = (st1, Success amt))
    (Hu : users st !! uid = Some u) :
  (∃ c, redeem_codes st !! code = Some c ∧ amount c = amt)
  ∧ (∃ u1, users st1 !! uid = Some u1 ∧ credits u1 = credits u + amt)
  ∧ ∀ nows,
      redeem_many (t0 :: nows) uid code st
      = (st1, Success amt :: repeat AlreadyClaimed (length nows)).
Proof.
  pose proof (redeem_success_inv _ _ _ _ _ _ Hfirst)
    as (Hprobe & c & Hc & Hamt & Hchecks & ->).
  split; [eauto|]. split.
  - rewrite redeem_transaction_users, !lookup_alter_eq, Hu. simpl.
    eexists; split; [reflexivity | by simpl].
  - intros nows. simpl. rewrite Hfirst.
    rewrite redeem_many_claimed; [done|].
    apply has_claimed_after_transaction.
Qed.

Lemma redeem_same_code_again_witness :
  let st := run [AddUser 1 None None 0; CreateRedeemCode "FLASH100" 100 1 (Some 15) 0] init_db in
  ∃ st1, redeem_many [10; 20; 30] 1 "FLASH100" st
         = (st1, [Success 100; AlreadyClaimed; AlreadyClaimed])
         ∧ credits <$> users st1 !! 1 = Some 105.
Proof.
  set (st := run [AddUser 1 None None 0; CreateRedeemCode "FLASH100" 100 1 (Some 15) 0] init_db).
  exists (fst (redeem_code_db 10 1 "FLASH100" st)).
  destruct (redeem_same_code_again st (fst (redeem_code_db 10 1 "FLASH100" st))
              1 "FLASH100" 10 100 (mk_user None 5 0 None false 0 0))
    as (_ & (u1 & Hu1 & Hc1) & Hmany); [reflexivity | reflexivity |].
  split; [exact (Hmany [20; 30]) |].
  rewrite Hu1. simpl. rewrite Hc1. reflexivity.
Defined.

(** C4 as stated fails when the limit is reached too: the use-count check
    comes before the expiry check.  A code with one use and a one-minute
    expiry is redeemed by account 2; account 1 calls 61 seconds after the
    creation and is told the limit is reached. *)
Lemma expired_and_used_up_is_limit_reached :
  ¬ (∀ st uid code c now m,
       redeem_codes st !! code = Some c → is_active c = true →
       expiry_minutes c = Some m → 0 < m →
       has_claimed uid code st = false →
       created_date c + minutes m < now →
       snd (redeem_code_db now uid code st) = Expired).
Proof.
  intros H.
  specialize (H (run [AddUser 1 None None 0; AddUser 2 None None 0;
                      CreateRedeemCode "A" 10 1 (Some 1) 0;
                      RedeemCodeDb 2 "A" 5] init_db)
                1 "A" (mk_code 10 1 1 (Some 1) 0 true) 61 1).
  discriminate H; first [reflexivity | unfold minutes; lia].
Qed.

(** C4 (amended): on an active code with an expiry, uses left, and no claim
    by this account, a call after [created_date + expiry_minutes] returns
    expired and changes nothing; with no uses left the same call returns
    limit-reached instead. *)
Theorem redeem_after_expiry st uid code c now m
    (Hc : redeem_codes st !! code = Some c) (Hact : is_active c = true)
    (Hexp : expiry_minutes c = Some m) (Hm : 0 < m)
    (Hnew : has_claimed uid code st = false)
    (Hlate : created_date c + minutes m < now) :
  redeem_code_db now uid code st
  = (st, if current_uses c >=? max_uses c then LimitReached else Expired).
Proof.
  unfold redeem_code_db. rewrite Hnew, Hc.
  unfold redeem_checks, is_expired. rewrite Hact, Hexp. simpl.
  destruct (current_uses c >=? max_uses c); [done|].
  destruct (Z.gtb_spec m 0); [|lia].
  destruct (Z.gtb_spec now (created_date c + minutes m)); [done | lia].
Qed.

Lemma redeem_after_expiry_witness :
  let st := run [CreateRedeemCode "A" 10 5 (Some 1) 1000] init_db in
  redeem_code_db 1061 1 "A" st = (st, Expired).
Proof.
  apply (redeem_after_expiry
           (run [CreateRedeemCode "A" 10 5 (Some 1) 1000] init_db)
           1 "A" (mk_code 10 5 0 (Some 1) 1000 true) 1061 1);
    first [reflexivity | unfold minutes; simpl; lia].
Defined.

(** The end-to-end scenario: one use, 15 minutes; A redeems, B is too late,
    A asks again. *)
Example flash100_scenario :
  let st0 := run [AddUser 1 None None 0; AddUser 2 None None 0;
                  CreateRedeemCode "FLASH100" 100 1 (Some 15) 0] init_db in
  let '(st1, o1) := redeem_code_db 10 1 "FLASH100" st0 in
  let '(st2, o2) := redeem_code_db 20 2 "FLASH100" st1 in
  let '(st3, o3) := redeem_code_db 30 1 "FLASH100" st2 in
  [o1; o2; o3] = [Success 100; LimitReached; AlreadyClaimed]
  ∧ credits <$> users st3 !! 1 = Some 105
  ∧ credits <$> users st3 !! 2 = Some 5.
Proof. vm_compute. repeat split; reflexivity. Qed.

End Redemption.

(** ** Counters and flags under the core operations *)

Section Invariants.

Implicit Types (st : db) (c : code_row) (o : op).

Lemma bulk_update_credits_frame uids amt st :
  redeem_codes (bulk_update_credits uids amt st) = redeem_codes st
  ∧ redeem_logs (bulk_update_credits uids amt st) = redeem_logs st.
Proof.
  unfold bulk_update_credits. revert st.
  induction uids as [|uid uids IH]; intros st; simpl; [done|].
  destruct (IH (update_credits uid amt st)) as [-> ->].
  by rewrite update_credits_codes, update_credits_logs.
Qed.

Lemma users_only_frame o st :
  users_only o = true →
  redeem_codes (step o st) = redeem_codes st
  ∧ redeem_logs (step o st) = redeem_logs st.
Proof.
  destruct o; simpl; try done; intros _.
  - unfold add_user. by destruct (users st !! user_id).
  - by rewrite update_credits_codes, update_credits_logs.
  - apply bulk_update_credits_frame.
Qed.

(** What a call of [redeem_code_db] does to the stores. *)
Lemma redeem_step uid code now st :
  fst (redeem_code_db now uid code st) = st
  ∨ (has_claimed uid code st = false
     ∧ ∃ c, redeem_codes st !! code = Some c
            ∧ fst (redeem_code_db now uid code st)
              = redeem_transaction now uid code (amount c) st).
Proof.
  unfold redeem_code_db.
  destruct (has_claimed uid code st); [by left|].
  destruct (redeem_codes st !! code) as [c|]; [|by left].
  destruct (redeem_checks now c); [by left|].
  right. eauto.
Qed.

Lemma count_logs_app code l1 l2 :
  count_logs code (l1 ++ l2) = count_logs code l1 + count_logs code l2.
Proof.
  unfold count_logs. rewrite List.filter_app, length_app. lia.
Qed.

Lemma count_logs_one code l :
  count_logs code [l] = if String.eqb (log_code l) code then 1 else 0.
Proof. unfold count_logs. simpl. by destruct (String.eqb (log_code l) code). Qed.

Lemma insert_log_fresh uid code now st :
  has_claimed uid code st = false →
  insert_log_or_ignore (mk_log uid code now) (redeem_logs st)
  = (redeem_logs st ++ [mk_log uid code now])%list.
Proof.
  unfold has_claimed, insert_log_or_ignore. simpl. by intros ->.
Qed.

(** Dropping the claims of one account does not change the count of a code
    none of them is on. *)
Lemma count_logs_drop_user code uid logs :
  (∀ l, l ∈ logs → log_user l = uid → log_code l ≠ code) →
  count_logs code (List.filter (λ l, negb (log_user l =? uid)) logs)
  = count_logs code logs.
Proof.
  unfold count_logs. induction logs as [|l logs IH]; intros H; [done|].
  assert (IH' : Z.of_nat (length (List.filter (λ l, String.eqb (log_code l) code)
                   (List.filter (λ l, negb (log_user l =? uid)) logs)))
                = Z.of_nat (length (List.filter (λ l, String.eqb (log_code l) code) logs))).
  { apply IH. intros l' Hl'. apply H. by right. }
  simpl. destruct (Z.eqb_spec (log_user l) uid) as [Heq|Hne]; simpl.
  - destruct (String.eqb_spec (log_code l) code) as [Hc|_]; [|exact IH'].
    exfalso. by apply (H l); [left | |].
  - destruct (String.eqb (log_code l) code); simpl; lia.
Qed.

Lemma uses_consistent_init : uses_consistent init_db.
Proof. intros code c H. unfold init_db in H. simpl in H. by rewrite lookup_empty in H. Qed.

(** One operation that keeps the counters keeps [uses_consistent]. *)
Lemma step_keeps_counters st o :
  uses_consistent st → keeps_counters o st → uses_consistent (step o st).
Proof.
  intros Hinv Hsafe.
  destruct (users_only o) eqn:Hu.
  { destruct (users_only_frame o st Hu) as [Hc Hl].
    unfold uses_consistent. rewrite Hc, Hl. exact Hinv. }
  destruct o; try discriminate Hu; simpl in *; intros code' c' Hrow.
  - (* delete_user *)
    change (redeem_codes st !! code' = Some c') in Hrow.
    change (redeem_logs (delete_user user_id st))
      with (List.filter (λ l, negb (log_user l =? user_id)) (redeem_logs st)).
    rewrite count_logs_drop_user; [by apply Hinv|].
    intros l Hl Hlu Hcode. specialize (Hsafe l Hl Hlu).
    rewrite Hcode in Hsafe. congruence.
  - (* create_redeem_code *)
    unfold create_redeem_code in *. simpl in *. destruct (decide (code = code')) as [<-|Hne].
    + rewrite lookup_insert_eq in Hrow. injection Hrow as <-. simpl. by rewrite Hsafe.
    + rewrite lookup_insert_ne in Hrow by done. by apply Hinv.
  - (* deactivate_code *)
    unfold deactivate_code in *. simpl in *. destruct (decide (code = code')) as [<-|Hne].
    + rewrite lookup_alter_eq in Hrow.
      destruct (redeem_codes st !! code) as [c|] eqn:Hc; [|done].
      injection Hrow as <-. simpl. by apply Hinv.
    + rewrite lookup_alter_ne in Hrow by done. by apply Hinv.
  - (* delete_redeem_code *)
    unfold delete_redeem_code in *. simpl in *. apply lookup_delete_Some in Hrow as [_ Hrow]. by apply Hinv.
  - (* redeem_code_db *)
    destruct (redeem_step user_id code now st) as [Heq|(Hnew & c & Hc & Heq)];
      rewrite Heq in Hrow |- *; [by apply Hinv|].
    rewrite redeem_transaction_logs, insert_log_fresh by done.
    rewrite redeem_transaction_codes in Hrow.
    rewrite count_logs_app, count_logs_one. simpl.
    destruct (String.eqb_spec code code') as [<-|Hne].
    + rewrite lookup_alter_eq, Hc in Hrow. injection Hrow as <-. simpl.
      rewrite (Hinv code c Hc). lia.
    + rewrite lookup_alter_ne in Hrow by done.
      rewrite (Hinv code' c' Hrow). lia.
Qed.

Lemma reachable_run ops st : reachable st → reachable (run ops st).
Proof.
  unfold run. revert st. induction ops as [|o ops IH]; intros st H; simpl; [done|].
  apply IH. by constructor.
Qed.

(** C1 as stated fails: deleting an account deletes its claims and leaves the
    counter of the code it claimed at 1. *)
Lemma delete_user_leaves_counter :
  ¬ (∀ st, reachable st → uses_consistent st).
Proof.
  intros H.
  pose proof (H (run [AddUser 1 None None 0; CreateRedeemCode "A" 10 5 None 0;
                      RedeemCodeDb 1 "A" 1; DeleteUser 1] init_db)
                (reachable_run _ _ reachable_init) "A"
                (mk_code 10 5 1 None 0 true) eq_refl) as Hbad.
  vm_compute in Hbad. discriminate Hbad.
Qed.

(** Creating a code again under an identifier that has claims resets the
    counter to 0 while the claims stay. *)
Example create_again_resets_counter :
  let st := run [AddUser 1 None None 0; CreateRedeemCode "A" 10 5 None 0;
                 RedeemCodeDb 1 "A" 1; CreateRedeemCode "A" 10 5 None 2] init_db in
  current_uses <$> redeem_codes st !! "A" = Some 0
  ∧ count_logs "A" (redeem_logs st) = 1.
Proof. split; reflexivity. Qed.

(** The transaction of a call whose claim is not on record yet keeps the
    counters, whether or not the code row is still there. *)
Lemma transaction_keeps_counters now uid code amt st :
  uses_consistent st → has_claimed uid code st = false →
  uses_consistent (redeem_transaction now uid code amt st).
Proof.
  intros Hinv Hnew code' c' Hrow.
  rewrite redeem_transaction_logs, insert_log_fresh by done.
  rewrite redeem_transaction_codes in Hrow.
  rewrite count_logs_app, count_logs_one. simpl.
  destruct (String.eqb_spec code code') as [<-|Hne].
  - rewrite lookup_alter_eq in Hrow.
    destruct (redeem_codes st !! code) as [c|] eqn:Hc; [|done].
    injection Hrow as <-. simpl. rewrite (Hinv code c Hc). lia.
  - rewrite lookup_alter_ne in Hrow by done.
    rewrite (Hinv code' c' Hrow). lia.
Qed.

(** The transaction of one claim puts no other claim on record. *)
Lemma transaction_other_claim now uid code amt uid' code' st :
  uid ≠ uid' ∨ code ≠ code' →
  has_claimed uid' code' st = false →
  has_claimed uid' code' (redeem_transaction now uid code amt st) = false.
Proof.
  intros Hne Hold. unfold has_claimed in *. rewrite redeem_transaction_logs.
  unfold insert_log_or_ignore. cbn [log_user log_code].
  destruct (existsb (log_matches uid code) (redeem_logs st)); [done|].
  rewrite existsb_app, Hold. simpl. unfold log_matches. simpl.
  destruct (Z.eqb_spec uid uid') as [Hu|_]; [|done].
  destruct (String.eqb_spec code code') as [Hc|_]; [|done].
  by destruct Hne.
Qed.

Lemma filter_no_claim (P : log_row → bool) uid code logs :
  existsb (log_matches uid code) logs = false →
  existsb (log_matches uid code) (List.filter P logs) = false.
Proof.
  induction logs as [|l logs IH]; simpl; [done|].
  intros [Hl Hrest]%orb_false_elim.
  destruct (P l); simpl; [rewrite Hl|]; by apply IH.
Qed.

(** An operation puts no claim on record, a whole call of [redeem_code_db]
    at most its own. *)
Lemma step_other_claim o uid code st :
  match o with
  | RedeemCodeDb uid' code' _ => uid' ≠ uid ∨ code' ≠ code
  | _ => True
  end →
  has_claimed uid code st = false →
  has_claimed uid code (step o st) = false.
Proof.
  intros Hother Hold.
  destruct (users_only o) eqn:Hu.
  { destruct (users_only_frame o st Hu) as [_ Hl].
    unfold has_claimed. rewrite Hl. exact Hold. }
  destruct o; try discriminate Hu; simpl; try exact Hold.
  - by apply filter_no_claim.
  - destruct (redeem_step user_id code0 now st) as [->|(_ & c & _ & ->)];
      [done|]. by apply transaction_other_claim.
Qed.

Lemma no_call_running_lookup uid code calls i (c : call) :
  no_call_running uid code calls = true →
  calls !! i = Some c → running c = true →
  call_user c ≠ uid ∨ call_code c ≠ code.
Proof.
  unfold no_call_running. rewrite forallb_forall. intros Hall Hc Hrun.
  assert (Hin : In c calls).
  { apply list_elem_of_In. by eapply list_elem_of_lookup_2. }
  specialize (Hall c Hin). rewrite Hrun in Hall. unfold same_claim in Hall.
  simpl in Hall.
  destruct (Z.eqb_spec (call_user c) uid); [|by left].
  destruct (String.eqb_spec (call_code c) code); [done | by right].
Qed.

Lemma past_probe_running (c : call) : past_probe c = true → running c = true.
Proof. unfold past_probe, running. by destruct (call_pc c). Qed.

(** A piece of a call keeps the account and the code of the call, and a call
    that has returned stays so. *)
Lemma advance_same_claim (c : call) st :
  call_user (snd (advance c st)) = call_user c
  ∧ call_code (snd (advance c st)) = call_code c
  ∧ (running (snd (advance c st)) = true → running c = true).
Proof.
  unfold advance, running.
  destruct (call_pc c) eqn:Hpc; simpl.
  - by destruct (has_claimed (call_user c) (call_code c) st).
  - destruct (redeem_codes st !! call_code c) as [data|]; [|done].
    by destruct (redeem_checks (call_now c) data).
  - done.
  - by rewrite Hpc.
Qed.

(** What a piece of a call does to the stores: nothing, or the transaction
    of a call that had passed its probe. *)
Lemma advance_store (c : call) st :
  fst (advance c st) = st
  ∨ (past_probe c = true
     ∧ running (snd (advance c st)) = false
     ∧ ∃ amt, fst (advance c st)
              = redeem_transaction (call_now c) (call_user c) (call_code c) amt st).
Proof.
  unfold advance, past_probe, running.
  destruct (call_pc c) eqn:Hpc; simpl.
  - left. by destruct (has_claimed (call_user c) (call_code c) st).
  - left. destruct (redeem_codes st !! call_code c) as [data|]; [|done].
    by destruct (redeem_checks (call_now c) data).
  - right. eauto.
  - by left.
Qed.

(** A call that is past its probe after a piece had no claim on record when
    the piece ran, if that held of the calls past their probe before. *)
Lemma advance_past_probe (c : call) st :
  (past_probe c = true → has_claimed (call_user c) (call_code c) st = false) →
  past_probe (snd (advance c st)) = true →
  has_claimed (call_user c) (call_code c) (fst (advance c st)) = false.
Proof.
  unfold advance, past_probe.
  destruct (call_pc c) eqn:Hpc; simpl.
  - intros _. by destruct (has_claimed (call_user c) (call_code c) st) eqn:E.
  - intros Hold. destruct (redeem_codes st !! call_code c) as [data|]; [|done].
    destruct (redeem_checks (call_now c) data); [done|]. intros _. by apply Hold.
  - done.
  - by rewrite Hpc.
Qed.

Lemma world_ok_init : world_ok init_world.
Proof.
  split; [apply uses_consistent_init|]. split.
  - intros i c H. simpl in H. by rewrite lookup_nil in H.
  - intros i j ci cj H. simpl in H. by rewrite lookup_nil in H.
Qed.

(** One permitted activity keeps [world_ok]. *)
Lemma perform_keeps_world_ok a w :
  world_ok w → permitted a w → world_ok (perform a w).
Proof.
  intros (Hinv & Hprobe & Hone) Hperm.
  destruct a as [o|uid code now|i]; simpl in *.
  - (* an operation from start to end *)
    destruct Hperm as [Hkeep Hfree].
    split; [by apply step_keeps_counters|]. split; [|exact Hone].
    intros i c Hc Hpast. apply step_other_claim; [|by eapply Hprobe].
    destruct o; try done.
    destruct (no_call_running_lookup _ _ _ _ _ Hfree Hc (past_probe_running _ Hpast));
      [left | right]; congruence.
  - (* a call starts *)
    split; [exact Hinv|]. split.
    + intros i c Hc Hpast. apply lookup_app_Some in Hc as [Hc|[_ Hc]];
        [by eapply Hprobe|].
      apply list_lookup_singleton_Some in Hc as [_ <-]. done.
    + assert (Hnew : ∀ i j ci cj,
                pending w !! i = Some ci →
                [new_call uid code now] !! j = Some cj →
                running ci = true →
                call_user ci = call_user cj → call_code ci = call_code cj →
                False).
      { intros i j ci cj Hi Hj Hrun Hu Hcode.
        apply list_lookup_singleton_Some in Hj as [_ <-]. simpl in *.
        by destruct (no_call_running_lookup _ _ _ _ _ Hperm Hi Hrun). }
      intros i j ci cj Hi Hj Hri Hrj Hu Hcode.
      apply lookup_app_Some in Hi as [Hi|[Hli Hi]];
        apply lookup_app_Some in Hj as [Hj|[Hlj Hj]].
      * by eapply Hone.
      * exfalso. by eapply Hnew.
      * exfalso. by eapply (Hnew j _ cj ci).
      * apply list_lookup_singleton_Some in Hi as [Hi _].
        apply list_lookup_singleton_Some in Hj as [Hj _]. lia.
  - (* a call runs up to its next await *)
    destruct (pending w !! i) as [c|] eqn:Hc; [|done].
    destruct (advance c (store w)) as [st' c'] eqn:Hadv.
    assert (Hst : st' = fst (advance c (store w))) by by rewrite Hadv.
    assert (Hc' : c' = snd (advance c (store w))) by by rewrite Hadv.
    destruct (advance_same_claim c (store w)) as (Hu & Hcode & Hrun).
    rewrite <- Hc' in Hu, Hcode, Hrun.
    assert (Hi : (i < length (pending w))%nat) by by eapply lookup_lt_Some.
    cbn [store pending]. split; [|split].
    + destruct (advance_store c (store w)) as [Heq|(Hpast & _ & amt & Heq)];
        rewrite Hst, Heq; [done|].
      apply transaction_keeps_counters; [done | by eapply Hprobe].
    + intros j cj Hj Hpast. cbn [store pending] in Hj |- *.
      destruct (decide (j = i)) as [->|Hne].
      * rewrite list_lookup_insert_eq in Hj by done. injection Hj as <-.
        rewrite Hu, Hcode, Hst. apply advance_past_probe; [|by rewrite <- Hc'].
        intros Hp. by eapply Hprobe.
      * rewrite list_lookup_insert_ne in Hj by done.
        destruct (advance_store c (store w)) as [Heq|(Hp & _ & amt & Heq)];
          rewrite Hst, Heq; [by eapply Hprobe|].
        apply transaction_other_claim; [|by eapply Hprobe].
        destruct (decide (call_user c = call_user cj)) as [Hsu|]; [|by left].
        destruct (decide (call_code c = call_code cj)) as [Hsc|]; [|by right].
        exfalso. apply Hne. symmetry.
        eapply (Hone i j c cj); eauto using past_probe_running.
    + intros j k cj ck Hj Hk Hrj Hrk Huu Hcc. cbn [store pending] in Hj, Hk.
      assert (Hold : ∀ n cn, <[i:=c']> (pending w) !! n = Some cn →
                running cn = true →
                ∃ cn', pending w !! n = Some cn' ∧ running cn' = true
                       ∧ call_user cn' = call_user cn
                       ∧ call_code cn' = call_code cn).
      { intros n cn Hn Hrn. destruct (decide (n = i)) as [->|Hne].
        - rewrite list_lookup_insert_eq in Hn by done. injection Hn as <-.
          exists c. auto.
        - rewrite list_lookup_insert_ne in Hn by done. exists cn. auto. }
      destruct (Hold j cj Hj Hrj) as (cj' & Hj' & Hrj' & Huj & Hcj).
      destruct (Hold k ck Hk Hrk) as (ck' & Hk' & Hrk' & Huk & Hck).
      eapply (Hone j k cj' ck'); eauto; congruence.
Qed.

Lemma permitted_run_world_ok acts w :
  world_ok w → permitted_run acts w → world_ok (perform_all acts w).
Proof.
  unfold perform_all. revert w.
  induction acts as [|a acts IH]; intros w Hok Hrun; simpl; [done|].
  destruct Hrun as [Ha Hrest]. apply IH; [by apply perform_keeps_world_ok | done].
Qed.

(** Calls that only resume are the interleavings of [interleave]. *)
Lemma perform_all_resume sched st calls :
  perform_all (map Resume sched) (mk_world st calls)
  = mk_world (fst (interleave sched st calls)) (snd (interleave sched st calls)).
Proof.
  unfold perform_all. revert st calls.
  induction sched as [|i sched IH]; intros st calls; simpl; [done|].
  destruct (calls !! i) as [c|]; [|apply IH].
  destruct (advance c st) as [st' c']. apply IH.
Qed.

(** Operations that run one after another, with no call under way, are the
    runs of [run]. *)
Lemma perform_all_whole ops st calls :
  perform_all (map Whole ops) (mk_world st calls) = mk_world (run ops st) calls.
Proof.
  unfold perform_all, run. revert st.
  induction ops as [|o ops IH]; intros st; simpl; [done|]. apply IH.
Qed.

(** C1 (amended): the stores are followed from [init_db] through operations
    and through calls of [redeem_code_db] whose pieces interleave with
    everything else.  As long as no code is created under an identifier that
    has claims, no account is deleted while it has a claim on a stored code,
    and no account starts a call on a code while another call of the same
    account on that code is under way, the counter of every code row equals
    the number of claims logged for it, after every piece of every call; and
    from such a state every permitted activity, every piece of a call under
    way, a whole [redeem_code_db], [deactivate_code] and
    [delete_redeem_code] keep the equality. *)
Theorem counters_match_log acts (Hrun : permitted_run acts init_world) :
  let w := perform_all acts init_world in
  uses_consistent (store w)
  ∧ (∀ a, permitted a w → uses_consistent (store (perform a w)))
  ∧ (∀ i, uses_consistent (store (perform (Resume i) w)))
  ∧ (∀ o, keeps_counters o (store w) → uses_consistent (step o (store w)))
  ∧ (∀ uid code now, uses_consistent (fst (redeem_code_db now uid code (store w))))
  ∧ (∀ code, uses_consistent (deactivate_code code (store w)))
  ∧ (∀ code, uses_consistent (delete_redeem_code code (store w))).
Proof.
  intros w.
  assert (Hok : world_ok w).
  { by apply permitted_run_world_ok; [apply world_ok_init|]. }
  assert (Hinv : uses_consistent (store w)) by apply Hok.
  split; [exact Hinv|].
  split; [intros a Ha; by apply (perform_keeps_world_ok a w)|].
  split; [intros i; by apply (perform_keeps_world_ok (Resume i) w)|].
  split; [intros o; by apply step_keeps_counters|].
  split; [|split].
  - intros uid code now.
    by apply (step_keeps_counters (store w) (RedeemCodeDb uid code now)).
  - intros code. by apply (step_keeps_counters (store w) (DeactivateCode code)).
  - intros code. by apply (step_keeps_counters (store w) (DeleteRedeemCode code)).
Qed.

(** Two accounts race for the one use of a code: both calls pass the probe
    and the checks before either transaction runs.  The counter ends at 2,
    above the limit, and two claims are logged. *)
Lemma counters_match_log_witness :
  let w := perform_all
             [Whole (AddUser 1 None None 0); Whole (AddUser 2 None None 0);
              Whole (CreateRedeemCode "A" 10 1 None 0);
              Begin 1 "A" 1; Begin 2 "A" 1;
              Resume 0; Resume 1; Resume 0; Resume 1; Resume 0; Resume 1]
             init_world in
  uses_consistent (store w)
  ∧ current_uses <$> redeem_codes (store w) !! "A" = Some 2
  ∧ count_logs "A" (redeem_logs (store w)) = 2.
Proof.
  split; [|split; reflexivity].
  refine (proj1 (counters_match_log _ _)).
  simpl. repeat split; reflexivity.
Defined.

(** A second call of the same account on the same code, started while the
    first is under way, is not a permitted activity: when both pass the
    probe before either transaction, the counter moves by 2 and one claim is
    logged. *)
Example same_account_overlap_not_permitted :
  let acts := [Whole (AddUser 1 None None 0);
               Whole (CreateRedeemCode "A" 10 5 None 0);
               Begin 1 "A" 1; Begin 1 "A" 2;
               Resume 0; Resume 1; Resume 0; Resume 1; Resume 0; Resume 1] in
  let w := perform_all acts init_world in
  ¬ permitted_run acts init_world
  ∧ current_uses <$> redeem_codes (store w) !! "A" = Some 2
  ∧ count_logs "A" (redeem_logs (store w)) = 1.
Proof.
  split; [|split; reflexivity].
  simpl. intros (_ & _ & _ & Hsecond & _). discriminate Hsecond.
Qed.

End Invariants.

(** ** Deactivated codes *)

Section Deactivation.

Implicit Types (st : db) (c : code_row) (o : op).

Lemma step_stays_off o st code :
  ¬ creates code o → not_active code st → not_active code (step o st).
Proof.
  intros Hnc Hoff.
  destruct (users_only o) eqn:Hu.
  { destruct (users_only_frame o st Hu) as [Hc _].
    unfold not_active. rewrite Hc. exact Hoff. }
  destruct o; try discriminate Hu; simpl in Hnc; intros c' Hrow.
  - (* delete_user *) by apply Hoff.
  - (* create_redeem_code *)
    unfold create_redeem_code in Hrow. simpl in Hrow.
    rewrite lookup_insert_ne in Hrow by done. by apply Hoff.
  - (* deactivate_code *)
    unfold deactivate_code in Hrow. simpl in Hrow.
    destruct (decide (code0 = code)) as [->|Hne].
    + rewrite lookup_alter_eq in Hrow.
      destruct (redeem_codes st !! code) as [c|]; [|done]. by injection Hrow as <-.
    + rewrite lookup_alter_ne in Hrow by done. by apply Hoff.
  - (* delete_redeem_code *)
    unfold delete_redeem_code in Hrow. simpl in Hrow.
    apply lookup_delete_Some in Hrow as [_ Hrow]. by apply Hoff.
  - (* redeem_code_db *)
    simpl in Hrow.
    destruct (redeem_step user_id code0 now st) as [Heq|(_ & c & Hc & Heq)];
      rewrite Heq in Hrow; [by apply Hoff|].
    rewrite redeem_transaction_codes in Hrow.
    destruct (decide (code0 = code)) as [->|Hne].
    + rewrite lookup_alter_eq, Hc in Hrow. injection Hrow as <-. simpl. by apply Hoff.
    + rewrite lookup_alter_ne in Hrow by done. by apply Hoff.
Qed.

Lemma run_stays_off ops st code :
  Forall (λ o, ¬ creates code o) ops →
  not_active code st → not_active code (run ops st).
Proof.
  unfold run. intros Hops. revert st.
  induction Hops as [|o ops Ho _ IH]; intros st Hoff; simpl; [done|].
  apply IH. by apply step_stays_off.
Qed.

Lemma redeem_not_active now uid code st :
  not_active code st →
  redeem_code_db now uid code st
  = (st, if has_claimed uid code st then AlreadyClaimed
         else match redeem_codes st !! code with
              | Some _ => Inactive
              | None => InvalidCode
              end).
Proof.
  intros Hoff. unfold redeem_code_db.
  destruct (has_claimed uid code st); [done|].
  destruct (redeem_codes st !! code) as [c|] eqn:Hc; [|done].
  unfold redeem_checks. by rewrite (Hoff c Hc).
Qed.

(** C6 as stated fails: [create_redeem_code] under the identifier of a
    deactivated code stores an active row again, and the next call of
    [redeem_code_db] on it succeeds. *)
Lemma create_again_reactivates :
  ¬ (∀ st code c ops uid now,
       redeem_codes st !! code = Some c → is_active c = false →
       not_active code (run ops st)
       ∧ snd (redeem_code_db now uid code (run ops st)) = Inactive).
Proof.
  intros H.
  destruct (H (run [AddUser 1 None None 0; CreateRedeemCode "A" 10 1 None 0;
                    DeactivateCode "A"] init_db)
              "A" (mk_code 10 1 0 None 0 false)
              [CreateRedeemCode "A" 10 1 None 5] 1 6 eq_refl eq_refl)
    as [_ Hbad].
  vm_compute in Hbad. discriminate Hbad.
Qed.

(** An account that claimed the code before it was switched off is told
    already-claimed, not inactive. *)
Example inactive_but_claimed :
  let st := run [AddUser 1 None None 0; CreateRedeemCode "A" 10 5 None 0;
                 RedeemCodeDb 1 "A" 1; DeactivateCode "A"] init_db in
  redeem_code_db 2 1 "A" st = (st, AlreadyClaimed)
  ∧ redeem_code_db 2 9 "A" st = (st, Inactive).
Proof. split; reflexivity. Qed.

(** C6 (amended): a code that is switched off stays switched off (or is
    deleted) through every run of core operations that does not create a code
    under the same identifier, and on such a code [redeem_code_db] never
    succeeds and changes nothing: it answers already-claimed to an account
    with a claim on record, otherwise inactive, or invalid once the row is
    deleted. *)
Theorem inactive_code_stays_unusable st code c ops
    (Hrow : redeem_codes st !! code = Some c) (Hoff : is_active c = false)
    (Hops : Forall (λ o, ¬ creates code o) ops) :
  let st' := run ops st in
  not_active code st'
  ∧ (∀ uid now,
       redeem_code_db now uid code st'
       = (st', if has_claimed uid code st' then AlreadyClaimed
               else match redeem_codes st' !! code with
                    | Some _ => Inactive
                    | None => InvalidCode
                    end))
  ∧ (∀ uid now amt, snd (redeem_code_db now uid code st') ≠ Success amt).
Proof.
  assert (Hst : not_active code st) by (intros c' Hc'; congruence).
  pose proof (run_stays_off ops st code Hops Hst) as Hoff'.
  cbv zeta. split; [exact Hoff'|]. split.
  - intros uid now. by apply redeem_not_active.
  - intros uid now amt. rewrite redeem_not_active by done. simpl.
    destruct (has_claimed uid code (run ops st)); [done|].
    by destruct (redeem_codes (run ops st) !! code).
Qed.

Lemma inactive_code_stays_unusable_witness :
  let st := run [CreateRedeemCode "A" 10 5 None 0; DeactivateCode "A"] init_db in
  let st' := run [AddUser 1 None None 3; UpdateCredits 1 4] st in
  redeem_code_db 9 1 "A" st' = (st', Inactive).
Proof.
  destruct (inactive_code_stays_unusable
              (run [CreateRedeemCode "A" 10 5 None 0; DeactivateCode "A"] init_db)
              "A" (mk_code 10 5 0 None 0 false)
              [AddUser 1 None None 3; UpdateCredits 1 4])
    as (_ & H & _);
    [reflexivity | reflexivity | repeat constructor; simpl; tauto |].
  exact (H 1 9).
Defined.

End Deactivation.

(** ** Balance of one account against its replayed events *)

Section Conservation.

Implicit Types (st : db) (u : user_row).

Lemma max_min_split d : Z.max d 0 + Z.min d 0 = d.
Proof. lia. Qed.

(** One event moves the balance by its delta and [total_earned] by what the
    code counts as granted. *)
Lemma apply_event_row uid ev st u :
  users st !! uid = Some u →
  ∃ u', users (fst (apply_event uid ev st)) !! uid = Some u'
        ∧ credits u' = credits u + delta (snd (apply_event uid ev st))
        ∧ total_earned u' = total_earned u + granted [snd (apply_event uid ev st)].
Proof.
  intros Hu. destruct ev as [code now| |d]; cbn [apply_event fst snd].
  - destruct (redeem_code_db now uid code st) as [st1 o] eqn:Hr.
    destruct o; cbn [fst snd];
      try (rewrite (redeem_refused_unchanged _ _ _ _ _ _ Hr) by done;
           simpl; exists u; split; [done | lia]).
    apply redeem_success_inv in Hr as (_ & c & _ & _ & _ & ->). cbn [fst snd].
    rewrite redeem_transaction_users, !lookup_alter_eq, Hu. simpl.
    eexists; split; [reflexivity|]. simpl. lia.
  - rewrite update_credits_lookup, Hu. simpl.
    eexists; split; [reflexivity|]. unfold referral_bonus. simpl. lia.
  - rewrite update_credits_lookup, Hu. simpl.
    eexists; split; [reflexivity|].
    destruct (Z.gtb_spec d 0); simpl; lia.
Qed.

Lemma play_row uid evs st u :
  users st !! uid = Some u →
  ∃ u', users (fst (play uid evs st)) !! uid = Some u'
        ∧ credits u' = credits u + positive_sum (snd (play uid evs st))
                       + negative_sum (snd (play uid evs st))
        ∧ total_earned u' = total_earned u + granted (snd (play uid evs st)).
Proof.
  revert st u. induction evs as [|ev evs IH]; intros st u Hu; simpl.
  - exists u. split; [done|]. lia.
  - destruct (apply_event_row uid ev st u Hu) as (u1 & Hu1 & Hc1 & Ht1).
    destruct (apply_event uid ev st) as [st1 e]. simpl in *.
    destruct (IH st1 u1 Hu1) as (u2 & Hu2 & Hc2 & Ht2).
    destruct (play uid evs st1) as [st2 es]. simpl in *.
    exists u2. split; [done|].
    pose proof (max_min_split (delta e)). lia.
Qed.

Lemma granted_positive es :
  (∀ e, e ∈ es → from_code e = true → 0 ≤ delta e) →
  granted es = positive_sum es.
Proof.
  induction es as [|e es IH]; intros H; simpl; [done|].
  rewrite IH by (intros e' He'; apply H; by right).
  destruct (from_code e) eqn:He; [|done].
  assert (0 ≤ delta e) by (apply H; [by left | done]). lia.
Qed.

(** C5 as stated fails on the account with no event at all: its balance is
    the 5 credits written by [add_user], its sums are 0. *)
Lemma fresh_balance_above_log :
  ¬ (∀ st uid n r t evs,
       users st !! uid = None →
       let st' := fst (play uid evs (add_user uid n r t st)) in
       let es := snd (play uid evs (add_user uid n r t st)) in
       ∃ u, users st' !! uid = Some u
            ∧ credits u = positive_sum es + negative_sum es).
Proof.
  intros H.
  destruct (H init_db 1 None None 0 [] eq_refl) as (u & Hu & Hc).
  vm_compute in Hu. injection Hu as <-. vm_compute in Hc. discriminate Hc.
Qed.

(** C5 (amended): after any sequence of redemptions, referral grants and
    adjustments on an account created by [add_user], the balance is 5 plus
    the sum of the positive deltas plus the sum of the negative deltas;
    [total_earned] is the sum of the redeemed amounts and of the positive
    adjustment deltas, which is the sum of the positive deltas when no
    redeemed amount is negative. *)
Theorem balance_replays_log st uid n r t evs
    (Hnew : users st !! uid = None) :
  let st' := fst (play uid evs (add_user uid n r t st)) in
  let es := snd (play uid evs (add_user uid n r t st)) in
  ∃ u, users st' !! uid = Some u
       ∧ credits u = 5 + positive_sum es + negative_sum es
       ∧ total_earned u = granted es
       ∧ ((∀ e, e ∈ es → from_code e = true → 0 ≤ delta e) →
          total_earned u = positive_sum es).
Proof.
  cbv zeta.
  destruct (play_row uid evs (add_user uid n r t st) (mk_user n 5 t r false 0 t))
    as (u & Hu & Hc & Ht).
  { rewrite add_user_new by done. apply lookup_insert_eq. }
  exists u. simpl in Hc, Ht.
  split; [done|]. split; [done|]. split; [lia|].
  intros Hpos. rewrite Ht. simpl. by apply granted_positive.
Qed.

Lemma balance_replays_log_witness :
  let st := run [CreateRedeemCode "A" 100 1 None 0] init_db in
  let evs := [Redemption "A" 1; Adjustment (-30); ReferralGrant; Redemption "A" 2] in
  ∃ u, users (fst (play 1 evs (add_user 1 None None 0 st))) !! 1 = Some u
       ∧ credits u = 5 + 103 + (-30)
       ∧ total_earned u = 103.
Proof.
  destruct (balance_replays_log (run [CreateRedeemCode "A" 100 1 None 0] init_db)
              1 None None 0
              [Redemption "A" 1; Adjustment (-30); ReferralGrant; Redemption "A" 2]
              eq_refl)
    as (u & Hu & Hc & Ht & _).
  exists u. split; [exact Hu|]. split; [exact Hc | exact Ht].
Defined.

End Conservation.

(** ** Calls racing on one code *)

Section Racing.

Implicit Types (st : db) (c : code_row).

(** A call that runs alone through its three pieces is [redeem_code_db]. *)
Lemma call_alone_is_redeem_code_db uid code now st :
  interleave [0; 0; 0]%nat st [new_call uid code now]
  = (fst (redeem_code_db now uid code st),
     [mk_call uid code now (Returned (snd (redeem_code_db now uid code st)))]).
Proof.
  unfold redeem_code_db, new_call. simpl. unfold advance at 1. simpl.
  destruct (has_claimed uid code st); [reflexivity|].
  simpl. unfold advance at 1. simpl.
  destruct (redeem_codes st !! code) as [c|]; [|reflexivity].
  destruct (redeem_checks now c); reflexivity.
Qed.

Lemma has_claimed_other now uid uid' code amt st :
  uid ≠ uid' →
  has_claimed uid' code (redeem_transaction now uid code amt st)
  = has_claimed uid' code st.
Proof.
  intros Hne. unfold has_claimed. rewrite redeem_transaction_logs.
  unfold insert_log_or_ignore. cbn [log_user log_code].
  destruct (existsb (log_matches uid code) (redeem_logs st)); [done|].
  rewrite existsb_app. simpl. unfold log_matches at 2. simpl.
  destruct (Z.eqb_spec uid uid'); [done|]. simpl. by rewrite !orb_false_r.
Qed.

(** One after another, as many calls succeed as the code has uses left; the
    others are told the limit is reached. *)
Lemma redeem_each_serial now uids : ∀ code st c (k : nat),
  NoDup uids →
  (∀ uid, uid ∈ uids → has_claimed uid code st = false) →
  redeem_codes st !! code = Some c →
  is_active c = true → is_expired now c = false →
  max_uses c - current_uses c = Z.of_nat k →
  snd (redeem_each now uids code st)
  = (repeat (Success (amount c)) (Nat.min k (length uids))
       ++ repeat LimitReached (length uids - k))%list
  ∧ current_uses <$> redeem_codes (fst (redeem_each now uids code st)) !! code
    = Some (current_uses c + Z.of_nat (Nat.min k (length uids))).
Proof.
  induction uids as [|uid rest IH]; intros code st c k Hnd Hnew Hc Hact Hexp Hk.
  - simpl. rewrite Hc. simpl. split; [by rewrite Nat.min_0_r | f_equal; lia].
  - apply NoDup_cons in Hnd as [Hnotin Hnd].
    assert (Hprobe : has_claimed uid code st = false) by (apply Hnew; by left).
    cbn [redeem_each]. unfold redeem_code_db. rewrite Hprobe, Hc.
    unfold redeem_checks. rewrite Hact, Hexp. simpl negb. cbv iota.
    destruct (Z.geb_spec (current_uses c) (max_uses c)) as [Hfull|Hleft].
    + assert (k = 0%nat) as -> by lia.
      destruct (IH code st c 0%nat) as [Hos Huses]; try done.
      { intros uid' Hin. apply Hnew. by right. }
      destruct (redeem_each now rest code st) as [st2 os]. simpl in *.
      rewrite Hos. split; [by rewrite Nat.sub_0_r | by rewrite Huses].
    + destruct k as [|k]; [lia|].
      set (st1 := redeem_transaction now uid code (amount c) st).
      destruct (IH code st1 (incr_uses c) k) as [Hos Huses]; try done.
      { intros uid' Hin. unfold st1. rewrite has_claimed_other.
        - apply Hnew. by right.
        - intros ->. done. }
      { unfold st1. by rewrite redeem_transaction_codes, lookup_alter_eq, Hc. }
      { simpl. lia. }
      destruct (redeem_each now rest code st1) as [st2 os]. simpl in *.
      rewrite Hos, Huses. split; [done | f_equal; lia].
Qed.

(** C2 on the code.  Accounts 1 and 2 call [redeem_code_db] on a code with
    one use.  When the first call ends before the second starts, the second
    is told the limit is reached and the counter ends at 1.  When both calls
    have fetched the row before either runs its transaction, both succeed:
    the counter ends at 2 with [max_uses] 1, both balances go up by 10 and
    two claims are logged. *)
Theorem interleaved_redeem_exceeds_limit :
  let st0 := run [AddUser 1 None None 0; AddUser 2 None None 0;
                  CreateRedeemCode "A" 10 1 None 0] init_db in
  let calls := [new_call 1 "A" 1; new_call 2 "A" 1] in
  let serial := interleave [0; 0; 0; 1; 1; 1]%nat st0 calls in
  let raced := interleave [0; 0; 1; 1; 0; 1]%nat st0 calls in
  results (snd serial) = [Returned (Success 10); Returned LimitReached]
  ∧ current_uses <$> redeem_codes (fst serial) !! "A" = Some 1
  ∧ results (snd raced) = [Returned (Success 10); Returned (Success 10)]
  ∧ current_uses <$> redeem_codes (fst raced) !! "A" = Some 2
  ∧ max_uses <$> redeem_codes (fst raced) !! "A" = Some 1
  ∧ credits <$> users (fst raced) !! 1 = Some 15
  ∧ credits <$> users (fst raced) !! 2 = Some 15
  ∧ count_logs "A" (redeem_logs (fst raced)) = 2.
Proof. vm_compute. repeat split; reflexivity. Qed.

End Racing.

(** * Further properties of the ledger *)

(** ** The claim log *)

Section ClaimLog.

Implicit Types (st : db) (c : code_row) (o : op) (l : log_row).

Lemma log_matches_key uid code l :
  log_matches uid code l = true ↔ log_key l = (uid, code).
Proof.
  unfold log_matches, log_key. rewrite andb_true_iff, Z.eqb_eq, String.eqb_eq.
  split; [intros [-> ->]; done | intros [= -> ->]; done].
Qed.

Lemma has_claimed_key uid code st :
  has_claimed uid code st = true ↔ (uid, code) ∈ map log_key (redeem_logs st).
Proof.
  unfold has_claimed. rewrite existsb_exists, list_elem_of_In, in_map_iff.
  split.
  - intros (l & Hin & Hm). exists l. by apply log_matches_key in Hm.
  - intros (l & Hk & Hin). exists l. by rewrite log_matches_key.
Qed.

Lemma NoDup_map_filter {A B} (f : A → B) (P : A → bool) (xs : list A) :
  NoDup (map f xs) → NoDup (map f (List.filter P xs)).
Proof.
  induction xs as [|x xs IH]; simpl; [done|].
  rewrite NoDup_cons. intros [Hx Hnd].
  destruct (P x); simpl; [|by apply IH].
  apply NoDup_cons. split; [|by apply IH].
  rewrite list_elem_of_In, in_map_iff in Hx |- *.
  intros (y & Hy & Hin). apply Hx. exists y.
  apply filter_In in Hin as [Hin _]. done.
Qed.

Lemma step_keeps_logs_unique o st : logs_unique st → logs_unique (step o st).
Proof.
  intros Hst.
  destruct (users_only o) eqn:Hu.
  { destruct (users_only_frame o st Hu) as [_ Hl].
    unfold logs_unique. by rewrite Hl. }
  destruct o; try discriminate Hu; try exact Hst.
  - (* delete_user *) by apply NoDup_map_filter.
  - (* redeem_code_db *)
    unfold step.
    destruct (redeem_step user_id code now st) as [->|(Hnew & c & Hc & ->)];
      [done|].
    unfold logs_unique. rewrite redeem_transaction_logs, insert_log_fresh by done.
    rewrite map_app. simpl. apply NoDup_app. split; [exact Hst|].
    split; [|apply NoDup_singleton].
    intros k Hk Hone. apply list_elem_of_singleton in Hone as ->.
    apply has_claimed_key in Hk. unfold log_key in Hk. simpl in Hk. congruence.
Qed.

Lemma reachable_logs_unique st : reachable st → logs_unique st.
Proof.
  induction 1 as [|o st _ IH]; [apply NoDup_nil_2 | by apply step_keeps_logs_unique].
Qed.

Lemma matching_rows_at_most_one uid code logs :
  NoDup (map log_key logs) →
  (length (List.filter (log_matches uid code) logs) ≤ 1)%nat.
Proof.
  induction logs as [|l logs IH]; simpl; [lia|].
  rewrite NoDup_cons. intros [Hl Hnd]. specialize (IH Hnd).
  destruct (log_matches uid code l) eqn:Hm; [|done]. simpl.
  destruct (List.filter (log_matches uid code) logs) as [|l' rest] eqn:Hf; [simpl; lia|].
  exfalso. apply Hl.
  assert (Hin : In l' (List.filter (log_matches uid code) logs)) by (rewrite Hf; by left).
  apply filter_In in Hin as [Hin Hm'].
  apply log_matches_key in Hm, Hm'. rewrite Hm, <- Hm'.
  rewrite list_elem_of_In. by apply in_map.
Qed.

(** X1: in every state the core operations reach from the empty stores,
    [redeem_logs] holds at most one row for a given account and code; the
    key columns have no duplicate. *)
Theorem claim_log_unique st (Hreach : reachable st) :
  logs_unique st
  ∧ ∀ uid code,
      (length (List.filter (log_matches uid code) (redeem_logs st)) ≤ 1)%nat.
Proof.
  pose proof (reachable_logs_unique st Hreach) as Hu.
  split; [exact Hu|]. intros uid code. by apply matching_rows_at_most_one.
Qed.

Lemma claim_log_unique_witness :
  logs_unique
    (step (RedeemCodeDb 2 "A" 3)
       (step (RedeemCodeDb 1 "A" 2)
          (step (RedeemCodeDb 1 "A" 1)
             (step (CreateRedeemCode "A" 10 5 None 0)
                (step (AddUser 1 None None 0) init_db))))).
Proof.
  refine (proj1 (claim_log_unique _ _)).
  do 5 apply reachable_step. apply reachable_init.
Defined.

Lemma history_codes uid st :
  (get_user_redeem_history uid st).*1
  = map log_code (List.filter (λ l, log_user l =? uid) (redeem_logs st)).
Proof.
  unfold get_user_redeem_history.
  induction (List.filter (λ l, log_user l =? uid) (redeem_logs st)) as [|l ls IH];
    simpl; [done | by rewrite <- IH].
Qed.

Lemma history_codes_NoDup uid logs :
  NoDup (map log_key logs) →
  NoDup (map log_code (List.filter (λ l, log_user l =? uid) logs)).
Proof.
  induction logs as [|l logs IH]; simpl; [intros _; apply NoDup_nil_2|].
  rewrite NoDup_cons. intros [Hl Hnd]. specialize (IH Hnd).
  destruct (Z.eqb_spec (log_user l) uid) as [Hu|_]; [|done]. simpl.
  apply NoDup_cons. split; [|done].
  rewrite list_elem_of_In, in_map_iff. intros (l' & Hc & Hin).
  apply filter_In in Hin as [Hin Hu']. apply Z.eqb_eq in Hu'.
  apply Hl. rewrite list_elem_of_In, in_map_iff. exists l'. split; [|done].
  unfold log_key. congruence.
Qed.

(** X2: the history of an account lists exactly the codes for which
    [redeem_code_db] answers already-claimed to it, and in a reachable state
    it lists no code twice. *)
Theorem redeem_history_matches_probe st uid (Hreach : reachable st) :
  NoDup (get_user_redeem_history uid st).*1
  ∧ ∀ code, has_claimed uid code st = true
            ↔ code ∈ (get_user_redeem_history uid st).*1.
Proof.
  rewrite history_codes. split.
  - apply history_codes_NoDup. by apply reachable_logs_unique.
  - intros code. unfold has_claimed.
    rewrite existsb_exists, list_elem_of_In, in_map_iff. split.
    + intros (l & Hin & Hm). exists l.
      apply andb_true_iff in Hm as [Hu Hc]. apply String.eqb_eq in Hc.
      split; [done|]. apply filter_In. done.
    + intros (l & Hc & Hin). apply filter_In in Hin as [Hin Hu].
      exists l. split; [done|]. unfold log_matches.
      by rewrite Hu, Hc, String.eqb_refl.
Qed.

Lemma redeem_history_matches_probe_witness :
  let st := step (RedeemCodeDb 1 "B" 2)
              (step (RedeemCodeDb 1 "A" 1)
                 (step (CreateRedeemCode "B" 7 5 None 0)
                    (step (CreateRedeemCode "A" 10 5 None 0)
                       (step (AddUser 1 None None 0) init_db)))) in
  NoDup (get_user_redeem_history 1 st).*1
  ∧ get_user_redeem_history 1 st = [("A", 1); ("B", 2)].
Proof.
  split; [|reflexivity].
  refine (proj1 (redeem_history_matches_probe _ 1 _)).
  do 5 apply reachable_step. apply reachable_init.
Defined.

End ClaimLog.

(** ** Counters under serial execution *)

Section SerialLimit.

Implicit Types (st : db) (c : code_row) (o : op).

Lemma step_keeps_uses_bounded o st : uses_bounded st → uses_bounded (step o st).
Proof.
  intros Hst.
  destruct (users_only o) eqn:Hu.
  { destruct (users_only_frame o st Hu) as [Hc _].
    unfold uses_bounded. by rewrite Hc. }
  destruct o; try discriminate Hu; intros code' c' Hrow.
  - (* delete_user *) by apply (Hst code').
  - (* create_redeem_code *)
    unfold step, create_redeem_code in Hrow. simpl in Hrow.
    destruct (decide (code = code')) as [<-|Hne].
    + rewrite lookup_insert_eq in Hrow. injection Hrow as <-. simpl. lia.
    + rewrite lookup_insert_ne in Hrow by done. by apply (Hst code').
  - (* deactivate_code *)
    unfold step, deactivate_code in Hrow. simpl in Hrow.
    destruct (decide (code = code')) as [<-|Hne].
    + rewrite lookup_alter_eq in Hrow.
      destruct (redeem_codes st !! code) as [c|] eqn:Hc; [|done].
      injection Hrow as <-. simpl. by apply (Hst code).
    + rewrite lookup_alter_ne in Hrow by done. by apply (Hst code').
  - (* delete_redeem_code *)
    unfold step, delete_redeem_code in Hrow. simpl in Hrow.
    apply lookup_delete_Some in Hrow as [_ Hrow]. by apply (Hst code').
  - (* redeem_code_db *)
    unfold step in Hrow.
    destruct (redeem_code_db now user_id code st) as [st1 out] eqn:Hr.
    simpl in Hrow. destruct out;
      try (rewrite (redeem_refused_unchanged _ _ _ _ _ _ Hr) in Hrow by done;
           by apply (Hst code')).
    apply redeem_success_inv in Hr as (_ & c & Hc & _ & Hchecks & ->).
    rewrite redeem_transaction_codes in Hrow.
    destruct (decide (code = code')) as [<-|Hne].
    + rewrite lookup_alter_eq, Hc in Hrow. injection Hrow as <-. simpl.
      destruct (Hst code c Hc) as [H0 _].
      unfold redeem_checks in Hchecks.
      destruct (negb (is_active c)); [done|].
      destruct (Z.geb_spec (current_uses c) (max_uses c)); [done|]. lia.
    + rewrite lookup_alter_ne in Hrow by done. by apply (Hst code').
Qed.

Lemma uses_bounded_init : uses_bounded init_db.
Proof. intros code c H. unfold init_db in H. simpl in H. by rewrite lookup_empty in H. Qed.

(** X3: when the core operations run one after another, a counter never
    passes its limit: in every state reached from the empty stores each code
    row has [0 <= current_uses], and [current_uses <= max_uses] unless the
    counter is still 0 (a code may be created with a limit below 0). *)
Theorem serial_counter_within_limit st (Hreach : reachable st) :
  uses_bounded st
  ∧ ∀ code c, redeem_codes st !! code = Some c →
              current_uses c ≤ Z.max 0 (max_uses c).
Proof.
  assert (Hb : uses_bounded st).
  { induction Hreach as [|o st _ IH];
      [apply uses_bounded_init | by apply step_keeps_uses_bounded]. }
  split; [exact Hb|]. intros code c Hc. destruct (Hb code c Hc). lia.
Qed.

Lemma serial_counter_within_limit_witness :
  let st := step (RedeemCodeDb 3 "A" 3)
              (step (RedeemCodeDb 2 "A" 2)
                 (step (RedeemCodeDb 1 "A" 1)
                    (step (CreateRedeemCode "A" 10 1 None 0) init_db))) in
  uses_bounded st ∧ current_uses <$> redeem_codes st !! "A" = Some 1.
Proof.
  split; [|reflexivity].
  refine (proj1 (serial_counter_within_limit _ _)).
  do 4 apply reachable_step. apply reachable_init.
Defined.

(** X4: distinct accounts that have not claimed an active, unexpired code
    call [redeem_code_db] one after another at the same clock reading.  With
    [k] uses left, the first [min k n] calls return the amount and all later
    ones limit-reached; the counter ends [min k n] higher. *)
Theorem serial_redeem_respects_limit now uids code st c (k : nat)
    (Hdistinct : NoDup uids)
    (Hnew : ∀ uid, uid ∈ uids → has_claimed uid code st = false)
    (Hc : redeem_codes st !! code = Some c)
    (Hact : is_active c = true) (Hexp : is_expired now c = false)
    (Hleft : max_uses c - current_uses c = Z.of_nat k) :
  snd (redeem_each now uids code st)
  = (repeat (Success (amount c)) (Nat.min k (length uids))
       ++ repeat LimitReached (length uids - k))%list
  ∧ current_uses <$> redeem_codes (fst (redeem_each now uids code st)) !! code
    = Some (current_uses c + Z.of_nat (Nat.min k (length uids))).
Proof. by apply redeem_each_serial. Qed.

Lemma serial_redeem_respects_limit_witness :
  let st := run [CreateRedeemCode "A" 10 2 (Some 5) 0] init_db in
  snd (redeem_each 7 [4; 5; 6] "A" st) = [Success 10; Success 10; LimitReached]
  ∧ current_uses <$> redeem_codes (fst (redeem_each 7 [4; 5; 6] "A" st)) !! "A"
    = Some 2.
Proof.
  apply (serial_redeem_respects_limit 7 [4; 5; 6] "A"
           (run [CreateRedeemCode "A" 10 2 (Some 5) 0] init_db)
           (mk_code 10 2 0 (Some 5) 0 true) 2).
  - apply (bool_decide_unpack (NoDup [4; 5; 6])). reflexivity.
  - intros uid _. reflexivity.
  - reflexivity.
  - reflexivity.
  - reflexivity.
  - reflexivity.
Defined.

(** X5: [redeem_code_db] does not look the account up.  For an id with no
    row in [users], a call on a code that passes the checks still returns
    the amount, uses up one use and logs the claim, and credits nobody: the
    table [users] is left exactly as it was. *)
Theorem redeem_unregistered_spends_use st uid code c now
    (Hno : users st !! uid = None)
    (Hnew : has_claimed uid code st = false)
    (Hc : redeem_codes st !! code = Some c)
    (Hok : redeem_checks now c = None) :
  let st' := fst (redeem_code_db now uid code st) in
  snd (redeem_code_db now uid code st) = Success (amount c)
  ∧ users st' = users st
  ∧ redeem_codes st' !! code = Some (incr_uses c)
  ∧ has_claimed uid code st' = true.
Proof.
  unfold redeem_code_db. rewrite Hnew, Hc, Hok. cbn [fst snd].
  split; [done|]. split; [|split].
  - rewrite redeem_transaction_users.
    rewrite !alter_id; [done | intros x Hx; congruence |].
    intros x Hx. rewrite alter_id in Hx; congruence.
  - by rewrite redeem_transaction_codes, lookup_alter_eq, Hc.
  - apply has_claimed_after_transaction.
Qed.

Lemma redeem_unregistered_spends_use_witness :
  let st := run [CreateRedeemCode "A" 10 1 None 0] init_db in
  snd (redeem_code_db 1 99 "A" st) = Success 10
  ∧ users (fst (redeem_code_db 1 99 "A" st)) = users st.
Proof.
  destruct (redeem_unregistered_spends_use
              (run [CreateRedeemCode "A" 10 1 None 0] init_db)
              99 "A" (mk_code 10 1 0 None 0 true) 1)
    as (H1 & H2 & _); [reflexivity | reflexivity | reflexivity | reflexivity |].
  split; [exact H1 | exact H2].
Defined.

End SerialLimit.

(** ** Deleting, banning and bulk crediting accounts *)

Section AccountAdmin.

Implicit Types (st : db) (u : user_row) (l : log_row).

Lemma delete_user_users st uid :
  users (delete_user uid st) = clear_referrer uid <$> delete uid (users st).
Proof. reflexivity. Qed.

Lemma delete_user_logs st uid :
  redeem_logs (delete_user uid st)
  = List.filter (λ l, negb (log_user l =? uid)) (redeem_logs st).
Proof. reflexivity. Qed.

Lemma clear_referrer_cleared uid u : referrer_id (clear_referrer uid u) ≠ Some uid.
Proof.
  unfold clear_referrer. destruct (referrer_id u) as [r|] eqn:Hr; [|by rewrite Hr].
  destruct (Z.eqb_spec r uid); simpl; [done|]. rewrite Hr. congruence.
Qed.

Lemma clear_referrer_balance uid u :
  credits (clear_referrer uid u) = credits u
  ∧ total_earned (clear_referrer uid u) = total_earned u
  ∧ is_banned (clear_referrer uid u) = is_banned u.
Proof.
  unfold clear_referrer. destruct (referrer_id u) as [r|]; [|done].
  by destruct (r =? uid).
Qed.

(** X6: [delete_user] removes the account's row and every claim it logged,
    and clears [referrer_id] on the accounts it referred; no row of [users]
    points at the deleted id afterwards.  The other accounts keep their
    balance, [total_earned] and ban flag, the codes (counters included) and
    the claims of other accounts are untouched. *)
Theorem delete_user_cleanup st uid :
  let st' := delete_user uid st in
  users st' !! uid = None
  ∧ (∀ l, l ∈ redeem_logs st' → log_user l ≠ uid)
  ∧ (∀ other u, users st' !! other = Some u → referrer_id u ≠ Some uid)
  ∧ (∀ other, other ≠ uid →
       users st' !! other = clear_referrer uid <$> users st !! other)
  ∧ (∀ other u, other ≠ uid → users st !! other = Some u →
       ∃ u', users st' !! other = Some u'
             ∧ credits u' = credits u ∧ total_earned u' = total_earned u
             ∧ is_banned u' = is_banned u)
  ∧ redeem_codes st' = redeem_codes st
  ∧ (∀ l, l ∈ redeem_logs st → log_user l ≠ uid → l ∈ redeem_logs st').
Proof.
  cbv zeta. rewrite delete_user_users, delete_user_logs.
  split; [by rewrite lookup_fmap, lookup_delete_eq|].
  split.
  { intros l Hl. rewrite list_elem_of_In in Hl. apply filter_In in Hl as [_ Hl].
    apply negb_true_iff, Z.eqb_neq in Hl. done. }
  split.
  { intros other u Hu. rewrite lookup_fmap in Hu.
    apply fmap_Some in Hu as (u0 & _ & ->). apply clear_referrer_cleared. }
  split.
  { intros other Hne. by rewrite lookup_fmap, lookup_delete_ne. }
  split.
  { intros other u Hne Hu. rewrite lookup_fmap, lookup_delete_ne, Hu by done.
    simpl. eexists; split; [reflexivity|]. apply clear_referrer_balance. }
  split; [done|].
  intros l Hl Hne. rewrite list_elem_of_In in Hl |- *. apply filter_In.
  split; [done|]. by apply negb_true_iff, Z.eqb_neq.
Qed.

Lemma has_claimed_after_delete st uid code :
  has_claimed uid code (delete_user uid st) = false.
Proof.
  unfold has_claimed. rewrite delete_user_logs.
  induction (redeem_logs st) as [|l logs IH]; simpl; [done|].
  destruct (Z.eqb_spec (log_user l) uid) as [Hu|Hu]; simpl; [done|].
  rewrite IH, orb_false_r. unfold log_matches.
  by destruct (Z.eqb_spec (log_user l) uid).
Qed.

(** X7: deleting an account forgets its claims.  After [delete_user] and a
    new [add_user] of the same id, a call of [redeem_code_db] on any stored
    code that passes the checks succeeds, also on a code the account had
    claimed before; the balance is then the 5 of a new account plus the
    amount. *)
Theorem deleted_account_claims_again st uid n r t code c now
    (Hc : redeem_codes st !! code = Some c)
    (Hok : redeem_checks now c = None) :
  let st1 := add_user uid n r t (delete_user uid st) in
  snd (redeem_code_db now uid code st1) = Success (amount c)
  ∧ credits <$> users (fst (redeem_code_db now uid code st1)) !! uid
    = Some (5 + amount c).
Proof.
  cbv zeta.
  assert (Hgone : users (delete_user uid st) !! uid = None)
    by (by rewrite delete_user_users, lookup_fmap, lookup_delete_eq).
  assert (Hst1 : add_user uid n r t (delete_user uid st)
                 = with_users (insert uid (mk_user n 5 t r false 0 t))
                              (delete_user uid st))
    by (unfold add_user; by rewrite Hgone).
  rewrite Hst1. unfold redeem_code_db.
  change (has_claimed uid code (with_users _ (delete_user uid st)))
    with (has_claimed uid code (delete_user uid st)).
  rewrite has_claimed_after_delete.
  change (redeem_codes (with_users _ (delete_user uid st))) with (redeem_codes st).
  rewrite Hc, Hok. cbn [fst snd]. split; [done|].
  rewrite redeem_transaction_users, !lookup_alter_eq.
  cbn [users with_users]. by rewrite lookup_insert_eq.
Qed.

Lemma deleted_account_claims_again_witness :
  let st := run [AddUser 1 None None 0; CreateRedeemCode "A" 10 5 None 0;
                 RedeemCodeDb 1 "A" 1] init_db in
  snd (redeem_code_db 2 1 "A" st) = AlreadyClaimed
  ∧ snd (redeem_code_db 2 1 "A" (add_user 1 None None 2 (delete_user 1 st)))
    = Success 10.
Proof.
  split; [reflexivity|].
  refine (proj1 (deleted_account_claims_again
                   (run [AddUser 1 None None 0; CreateRedeemCode "A" 10 5 None 0;
                         RedeemCodeDb 1 "A" 1] init_db)
                   1 None None 2 "A" (mk_code 10 5 1 None 0 true) 2 _ _));
    reflexivity.
Defined.

Lemma row_update_once amt (k : nat) u :
  add_total_earned (Z.of_nat k * Z.max amt 0) (add_credits (Z.of_nat k * amt)
    (if amt >? 0 then add_total_earned amt (add_credits amt u) else add_credits amt u))
  = add_total_earned (Z.of_nat (S k) * Z.max amt 0) (add_credits (Z.of_nat (S k) * amt) u).
Proof.
  destruct (Z.gtb_spec amt 0); unfold add_total_earned, add_credits; simpl;
    f_equal; lia.
Qed.

(** X8: [bulk_update_credits] applies the single update once per occurrence
    of an id in the list.  An account listed [k] times has its balance moved
    by [k * amt] and its [total_earned] by [k * amt] when [amt] is positive
    (by nothing otherwise); ids without a row are skipped, accounts not
    listed, codes and claims are untouched. *)
Theorem bulk_update_credits_per_occurrence uids amt st uid :
  let k := Z.of_nat (count_occ Z.eq_dec uids uid) in
  users (bulk_update_credits uids amt st) !! uid
  = (λ u, add_total_earned (k * Z.max amt 0) (add_credits (k * amt) u))
      <$> users st !! uid
  ∧ redeem_codes (bulk_update_credits uids amt st) = redeem_codes st
  ∧ redeem_logs (bulk_update_credits uids amt st) = redeem_logs st.
Proof.
  cbv zeta. split; [|apply bulk_update_credits_frame].
  unfold bulk_update_credits. revert st.
  induction uids as [|a uids IH]; intros st.
  - simpl. destruct (users st !! uid) as [u|]; [|done]. simpl. f_equal.
    destruct u. unfold add_total_earned, add_credits. simpl. f_equal; lia.
  - cbn [fold_left]. rewrite IH. cbn [count_occ].
    destruct (Z.eq_dec a uid) as [->|Hne].
    + rewrite update_credits_lookup.
      destruct (users st !! uid) as [u|]; [|done]. simpl. f_equal.
      apply row_update_once.
    + by rewrite update_credits_lookup_ne.
Qed.

(** X9: a ban only lands on a registered account.  For an id without a row
    [set_ban_status] changes nothing, and the account that registers
    afterwards is not banned; on a registered account the flag reads back as
    it was set and the rest of the row is kept. *)
Theorem ban_needs_registration st uid b n r t :
  match users st !! uid with
  | None =>
      set_ban_status uid b st = st
      ∧ is_user_banned uid (add_user uid n r t (set_ban_status uid b st)) = false
  | Some u =>
      is_user_banned uid (set_ban_status uid b st) = b
      ∧ users (set_ban_status uid b st) !! uid = Some (set_banned b u)
  end.
Proof.
  destruct (users st !! uid) as [u|] eqn:Hu.
  - unfold is_user_banned, get_user, set_ban_status. simpl.
    by rewrite lookup_alter_eq, Hu.
  - assert (Hid : set_ban_status uid b st = st).
    { unfold set_ban_status, with_users. destruct st as [us cs ls]. simpl in *.
      f_equal. apply alter_id. intros x Hx. congruence. }
    split; [exact Hid|]. rewrite Hid.
    unfold is_user_banned, get_user, add_user. rewrite Hu. simpl.
    by rewrite lookup_insert_eq.
Qed.

End AccountAdmin.

(** ** Statistics *)

Section Statistics.

Implicit Types (st : db) (u : user_row) (m : gmap Z user_row).

Lemma sum_users_insert f m i x :
  m !! i = None → sum_users f (<[i:=x]> m) = f x + sum_users f m.
Proof.
  intros Hi. unfold sum_users.
  rewrite map_fold_insert_L; [done | intros; lia | done].
Qed.

Lemma sum_users_delete f m i x :
  m !! i = Some x → sum_users f m = f x + sum_users f (delete i m).
Proof.
  intros Hi. unfold sum_users.
  rewrite (map_fold_delete_L _ _ i x m); [done | intros; lia | done].
Qed.

Lemma sum_users_alter f g m i x :
  m !! i = Some x →
  sum_users f (alter g i m) = sum_users f m - f x + f (g x).
Proof.
  intros Hi.
  rewrite (sum_users_delete f (alter g i m) i (g x))
    by (by rewrite lookup_alter_eq, Hi).
  rewrite delete_alter_eq, (sum_users_delete f m i x Hi). lia.
Qed.

Lemma size_alter g m i : size (alter g i m) = size m.
Proof.
  rewrite <- !(size_dom (D := gset Z)). by rewrite dom_alter_L.
Qed.

Lemma update_credits_missing st uid d :
  users st !! uid = None → update_credits uid d st = st.
Proof.
  intros Hu. unfold update_credits, with_users. destruct st as [us cs ls].
  simpl in *. destruct (d >? 0); f_equal; apply alter_id; intros x Hx; congruence.
Qed.

(** X10: the totals of [get_bot_stats] follow [update_credits].  On a
    registered account the total of credits moves by exactly [d] and the
    total distributed by [d] when [d] is positive (by nothing otherwise); the
    number of accounts is unchanged.  On an id without a row nothing changes:
    the update is silently dropped. *)
Theorem stats_follow_update_credits st uid d :
  match users st !! uid with
  | Some _ =>
      total_credits (get_bot_stats (update_credits uid d st))
      = total_credits (get_bot_stats st) + d
      ∧ credits_distributed (get_bot_stats (update_credits uid d st))
        = credits_distributed (get_bot_stats st) + Z.max d 0
      ∧ total_users (get_bot_stats (update_credits uid d st))
        = total_users (get_bot_stats st)
  | None => get_bot_stats (update_credits uid d st) = get_bot_stats st
  end.
Proof.
  destruct (users st !! uid) as [u|] eqn:Hu;
    [|by rewrite update_credits_missing].
  unfold get_bot_stats, update_credits. simpl.
  destruct (Z.gtb_spec d 0); simpl;
    rewrite !(sum_users_alter _ _ _ _ u Hu), size_alter; simpl;
    repeat split; lia.
Qed.

(** X11: what registration and redemption add to the totals.  A new account
    adds one account and 5 credits and nothing to the total distributed; a
    successful [redeem_code_db] by a registered account adds the amount to
    both the total of credits and the total distributed. *)
Theorem stats_follow_signup_and_redeem st uid n r t code now st1 amt
    (Hnew : users st !! uid = None)
    (Hredeem : redeem_code_db now uid code (add_user uid n r t st)
               = (st1, Success amt)) :
  let s0 := get_bot_stats st in
  let s1 := get_bot_stats (add_user uid n r t st) in
  let s2 := get_bot_stats st1 in
  total_users s1 = total_users s0 + 1
  ∧ total_credits s1 = total_credits s0 + 5
  ∧ credits_distributed s1 = credits_distributed s0
  ∧ total_users s2 = total_users s1
  ∧ total_credits s2 = total_credits s1 + amt
  ∧ credits_distributed s2 = credits_distributed s1 + amt.
Proof.
  cbv zeta.
  apply redeem_success_inv in Hredeem as (_ & c & _ & _ & _ & ->).
  unfold get_bot_stats. rewrite redeem_transaction_users.
  rewrite add_user_new by done. cbn [total_users total_credits credits_distributed].
  set (new := mk_user n 5 t r false 0 t).
  assert (H1 : <[uid:=new]> (users st) !! uid = Some new) by apply lookup_insert_eq.
  assert (H2 : alter (add_credits amt) uid (<[uid:=new]> (users st)) !! uid
               = Some (add_credits amt new)) by (by rewrite lookup_alter_eq, H1).
  rewrite !(sum_users_alter _ _ _ _ _ H2), !(sum_users_alter _ _ _ _ _ H1).
  rewrite !size_alter, !sum_users_insert by done.
  rewrite map_size_insert_None by done. simpl. repeat split; lia.
Qed.

Lemma stats_follow_signup_and_redeem_witness :
  let st := run [AddUser 1 None None 0; CreateRedeemCode "A" 10 5 None 0] init_db in
  let st1 := fst (redeem_code_db 3 2 "A" (add_user 2 None None 1 st)) in
  total_credits (get_bot_stats st1) = total_credits (get_bot_stats st) + 5 + 10.
Proof.
  destruct (stats_follow_signup_and_redeem
              (run [AddUser 1 None None 0; CreateRedeemCode "A" 10 5 None 0] init_db)
              2 None None 1 "A" 3
              (fst (redeem_code_db 3 2 "A"
                      (add_user 2 None None 1
                         (run [AddUser 1 None None 0;
                               CreateRedeemCode "A" 10 5 None 0] init_db))))
              10 eq_refl eq_refl)
    as (_ & H1 & _ & _ & H2 & _).
  cbv zeta. rewrite H2, H1. reflexivity.
Defined.

End Statistics.

(** ** Expired codes *)

Section ExpiredCodes.

Implicit Types (st : db) (c : code_row) (cfg : config).

Lemma in_get_expired_codes utc_now st code c :
  (code, c) ∈ get_expired_codes utc_now st
  ↔ redeem_codes st !! code = Some c ∧ sql_expired utc_now c = true.
Proof.
  unfold get_expired_codes. rewrite list_elem_of_In, filter_In.
  rewrite <- list_elem_of_In, elem_of_map_to_list. done.
Qed.

Lemma delete_codes_lookup (l : list (string * code_row)) st code :
  redeem_codes (fold_left (λ acc kv, delete_redeem_code kv.1 acc) l st) !! code
  = if decide (code ∈ l.*1) then None else redeem_codes st !! code.
Proof.
  revert st. induction l as [|[k v] l IH]; intros st; simpl.
  - destruct (decide (code ∈ [])) as [H|_]; [by apply elem_of_nil in H | done].
  - rewrite IH. unfold delete_redeem_code. simpl.
    destruct (decide (code ∈ l.*1)) as [Hin|Hnin].
    + rewrite decide_True; [done | by right].
    + destruct (decide (code = k)) as [->|Hne].
      * rewrite decide_True by (by left). apply lookup_delete_eq.
      * rewrite decide_False; [by apply lookup_delete_ne|].
        intros [?|?]%elem_of_cons; done.
Qed.

Lemma delete_codes_frame (l : list (string * code_row)) st :
  users (fold_left (λ acc kv, delete_redeem_code kv.1 acc) l st) = users st
  ∧ redeem_logs (fold_left (λ acc kv, delete_redeem_code kv.1 acc) l st)
    = redeem_logs st.
Proof.
  revert st. induction l as [|kv l IH]; intros st; simpl; [done|].
  destruct (IH (delete_redeem_code kv.1 st)) as [-> ->]. done.
Qed.

Lemma filter_nil_all {A} (P : A → bool) (l : list A) :
  (∀ x, x ∈ l → P x = false) → List.filter P l = [].
Proof.
  induction l as [|x l IH]; intros H; simpl; [done|].
  rewrite (H x) by (by left). apply IH. intros y Hy. apply H. by right.
Qed.

(** The codes left by the deletions of [clean_expired_cmd]. *)
Lemma cleaned_lookup utc_now st code :
  redeem_codes
    (fold_left (λ acc kv, delete_redeem_code kv.1 acc)
               (get_expired_codes utc_now st) st) !! code
  = match redeem_codes st !! code with
    | Some c => if sql_expired utc_now c then None else Some c
    | None => None
    end.
Proof.
  rewrite delete_codes_lookup.
  destruct (decide (code ∈ (get_expired_codes utc_now st).*1)) as [Hin|Hnin].
  - apply list_elem_of_fmap in Hin as ([k c] & -> & Hin). simpl.
    apply in_get_expired_codes in Hin as [-> ->]. done.
  - destruct (redeem_codes st !! code) as [c|] eqn:Hc; [|done].
    destruct (sql_expired utc_now c) eqn:He; [|done].
    exfalso. apply Hnin. apply list_elem_of_fmap. exists (code, c).
    split; [done|]. by apply in_get_expired_codes.
Qed.

(** X12: run by the owner, [clean_expired_cmd] deletes exactly the rows that
    [get_expired_codes] lists: the active codes whose expiry lies before
    SQLite's clock.  Every other code row (deactivated codes and codes
    without expiry included) stays as it is, accounts and claims are not
    touched, and a second listing at the same clock reading is empty.  Run
    by anyone else it changes nothing. *)
Theorem clean_expired_deletes_listed cfg uid utc_now st :
  let st' := fst (clean_expired_cmd cfg uid utc_now st) in
  (∀ code,
     redeem_codes st' !! code
     = if uid =? OWNER_ID cfg
       then match redeem_codes st !! code with
            | Some c => if sql_expired utc_now c then None else Some c
            | None => None
            end
       else redeem_codes st !! code)
  ∧ users st' = users st
  ∧ redeem_logs st' = redeem_logs st
  ∧ (if uid =? OWNER_ID cfg then get_expired_codes utc_now st' = []
     else st' = st).
Proof.
  cbv zeta. unfold clean_expired_cmd, is_user_owner.
  destruct (uid =? OWNER_ID cfg); simpl; [|done].
  assert (Hsame : fst (match get_expired_codes utc_now st with
                       | [] => (st, NothingExpired)
                       | _ :: _ =>
                           (fold_left (λ acc kv, delete_redeem_code kv.1 acc)
                              (get_expired_codes utc_now st) st,
                            Cleaned (length (get_expired_codes utc_now st)))
                       end)
                  = fold_left (λ acc kv, delete_redeem_code kv.1 acc)
                      (get_expired_codes utc_now st) st).
  { by destruct (get_expired_codes utc_now st). }
  rewrite Hsame. split; [intros code; apply cleaned_lookup|].
  destruct (delete_codes_frame (get_expired_codes utc_now st) st) as [Hu Hl].
  split; [done|]. split; [done|].
  unfold get_expired_codes at 1. apply filter_nil_all.
  intros [k c] Hin. apply elem_of_map_to_list in Hin.
  rewrite cleaned_lookup in Hin. simpl.
  destruct (redeem_codes st !! k) as [c0|]; [|done].
  destruct (sql_expired utc_now c0) eqn:He; [done|]. congruence.
Qed.

(** X13: a code that [get_expired_codes] lists is one [redeem_code_db]
    refuses, as long as the local clock of the bot is not behind SQLite's
    UTC clock: the call answers already-claimed, limit-reached or expired
    and changes nothing. *)
Theorem listed_expired_is_refused st code c utc_now now uid
    (Hc : redeem_codes st !! code = Some c)
    (Hexp : sql_expired utc_now c = true)
    (Hclock : utc_now ≤ now) :
  (code, c) ∈ get_expired_codes utc_now st
  ∧ redeem_code_db now uid code st
    = (st, if has_claimed uid code st then AlreadyClaimed
           else if current_uses c >=? max_uses c then LimitReached
           else Expired).
Proof.
  split; [by apply in_get_expired_codes|].
  unfold sql_expired in Hexp. apply andb_true_iff in Hexp as [Hact Hexp].
  destruct (expiry_minutes c) as [m|] eqn:Hm; [|done].
  apply andb_true_iff in Hexp as [Hpos Hlate].
  apply Z.gtb_lt in Hpos. apply Z.ltb_lt in Hlate.
  destruct (has_claimed uid code st) eqn:Hprobe.
  - by apply redeem_already_claimed.
  - unfold redeem_code_db. rewrite Hprobe, Hc.
    unfold redeem_checks, is_expired. rewrite Hact, Hm. simpl.
    destruct (current_uses c >=? max_uses c); [done|].
    destruct (Z.gtb_spec m 0); [|lia].
    destruct (Z.gtb_spec now (created_date c + minutes m)); [done | lia].
Qed.

Lemma listed_expired_is_refused_witness :
  let st := run [CreateRedeemCode "A" 10 5 (Some 1) 0] init_db in
  redeem_code_db 100 1 "A" st = (st, Expired).
Proof.
  refine (proj2 (listed_expired_is_refused
                   (run [CreateRedeemCode "A" 10 5 (Some 1) 0] init_db)
                   "A" (mk_code 10 5 0 (Some 1) 0 true) 100 100 1 _ _ _));
    [reflexivity | reflexivity | lia].
Defined.

(** X14: the time left that [list_codes_cmd] prints comes from the seconds
    field of the difference, so whole days are dropped.  For a code with an
    expiry ahead, the line shows [h] hours and [mi] minutes with [h < 24] and
    [mi < 60]; they are the time left, rounded down to the minute, only when
    less than a day is left, and fall short by the whole days otherwise. *)
Theorem time_left_line_drops_days now c m
    (Hexp : expiry_minutes c = Some m) (Hm : m ≠ 0)
    (Hahead : now < created_date c + minutes m) :
  let remaining := created_date c + minutes m - now in
  ∃ h mi,
    list_codes_expiry now c = TimeLeftLine h mi
    ∧ 0 ≤ h < 24 ∧ 0 ≤ mi < 60
    ∧ 3600 * h + 60 * mi ≤ remaining mod 86400 < 3600 * h + 60 * mi + 60
    ∧ remaining = 86400 * (remaining / 86400) + remaining mod 86400
    ∧ (remaining < 86400 →
       3600 * h + 60 * mi ≤ remaining < 3600 * h + 60 * mi + 60)
    ∧ (86400 ≤ remaining → 3600 * h + 60 * mi + 86400 ≤ remaining).
Proof.
  cbv zeta. unfold list_codes_expiry. rewrite Hexp.
  destruct (Z.eqb_spec m 0); [done|].
  destruct (Z.gtb_spec (created_date c + minutes m) now); [|lia].
  set (left := created_date c + minutes m - now).
  assert (0 < left) by (unfold left; lia).
  eexists _, _. split; [reflexivity|].
  pose proof (Z.mod_pos_bound left 86400 ltac:(lia)) as Hs.
  pose proof (Z.div_mod left 86400 ltac:(lia)) as Hd.
  set (s := left mod 86400) in *.
  pose proof (Z.div_mod s 3600 ltac:(lia)) as Hh.
  pose proof (Z.mod_pos_bound s 3600 ltac:(lia)) as Hr.
  set (r := s mod 3600) in *.
  pose proof (Z.div_mod r 60 ltac:(lia)) as Hmi.
  pose proof (Z.mod_pos_bound r 60 ltac:(lia)) as Hr60.
  assert (0 ≤ left / 86400) by (apply Z.div_pos; lia).
  assert (left < 86400 → left / 86400 = 0) by (intros; apply Z.div_small; lia).
  assert (86400 ≤ left → 1 ≤ left / 86400).
  { intros. apply Z.div_le_lower_bound; lia. }
  repeat split; try lia.
Qed.

Lemma time_left_line_drops_days_witness :
  ∃ h mi, list_codes_expiry 0 (mk_code 10 5 0 (Some 1500) 0 true)
          = TimeLeftLine h mi
          ∧ 0 ≤ h < 24 ∧ 0 ≤ mi < 60.
Proof.
  destruct (time_left_line_drops_days 0 (mk_code 10 5 0 (Some 1500) 0 true) 1500)
    as (h & mi & Hl & Hh & Hmi & _); [reflexivity | lia | unfold minutes; simpl; lia |].
  exists h, mi. split; [exact Hl | split; assumption].
Defined.

(** Twenty-five hours ahead reads as one hour. *)
Example time_left_25_hours :
  list_codes_expiry 0 (mk_code 10 5 0 (Some 1500) 0 true) = TimeLeftLine 1 0.
Proof. reflexivity. Qed.

End ExpiredCodes.

(** ** Admin rights *)

Section Admins.

Implicit Types (s : bot) (cfg : config).

(** X15: what the owner's commands do to admin rights.  After
    [add_admin_cmd] the target is an admin.  After [remove_admin_cmd] the
    target is an admin only if it is the owner or listed in [ADMIN_IDS]: the
    command cannot take the rights of a static admin away.  Called by anyone
    but the owner both commands change nothing; neither touches the ledger
    or the lookup log. *)
Theorem admin_commands_rights cfg caller uid s :
  let granted := add_admin_cmd cfg caller (Some uid) s in
  let revoked := remove_admin_cmd cfg caller (Some uid) s in
  (if caller =? OWNER_ID cfg
   then truthy (is_user_admin cfg uid granted) = true
        ∧ is_user_admin cfg uid revoked
          = (if uid =? OWNER_ID cfg then Some "owner"
             else if existsb (Z.eqb uid) (ADMIN_IDS cfg) then Some "admin"
             else None)
   else granted = s ∧ revoked = s)
  ∧ ledger granted = ledger s ∧ lookup_logs granted = lookup_logs s
  ∧ ledger revoked = ledger s ∧ lookup_logs revoked = lookup_logs s.
Proof.
  cbv zeta. unfold add_admin_cmd, remove_admin_cmd, is_user_owner.
  destruct (caller =? OWNER_ID cfg); simpl; [|done].
  unfold is_user_admin.
  destruct (uid =? OWNER_ID cfg); [done|].
  destruct (existsb (Z.eqb uid) (ADMIN_IDS cfg)); [done|].
  unfold is_admin, add_admin, remove_admin. simpl.
  by rewrite lookup_insert_eq, lookup_delete_eq.
Qed.

Lemma register_static_admins_lookup cfg (ids : list Z) s a :
  is_admin a (fold_left (λ acc admin_id,
                           if negb (admin_id =? OWNER_ID cfg)
                           then add_admin admin_id "admin" acc else acc) ids s)
  = if existsb (Z.eqb a) ids && negb (a =? OWNER_ID cfg)
    then Some "admin" else is_admin a s.
Proof.
  revert s. induction ids as [|b ids IH]; intros s; simpl; [done|].
  rewrite IH. destruct (existsb (Z.eqb a) ids && negb (a =? OWNER_ID cfg)) eqn:E.
  - apply andb_true_iff in E as [-> ->]. by rewrite orb_true_r.
  - destruct (Z.eqb_spec a b) as [->|Hne]; simpl.
    + destruct (b =? OWNER_ID cfg); simpl; [done|].
      unfold is_admin, add_admin. simpl. by rewrite lookup_insert_eq.
    + rewrite E. destruct (negb (b =? OWNER_ID cfg)); [|done].
      unfold is_admin, add_admin. simpl. by rewrite lookup_insert_ne.
Qed.

(** X16: the start-up loop writes one [admins] row with level admin for
    every id of [ADMIN_IDS] other than the owner, replacing a row that was
    there; every other row of [admins], the ledger and the lookup log are
    left as they were. *)
Theorem static_admins_registered cfg s a :
  is_admin a (register_static_admins cfg s)
  = (if existsb (Z.eqb a) (ADMIN_IDS cfg) && negb (a =? OWNER_ID cfg)
     then Some "admin" else is_admin a s)
  ∧ ledger (register_static_admins cfg s) = ledger s
  ∧ lookup_logs (register_static_admins cfg s) = lookup_logs s.
Proof.
  split; [apply register_static_admins_lookup|].
  unfold register_static_admins. generalize (ADMIN_IDS cfg) as ids.
  intros ids. revert s. induction ids as [|b ids IH]; intros s; simpl; [done|].
  destruct (IH (if negb (b =? OWNER_ID cfg) then add_admin b "admin" s else s))
    as [-> ->].
  by destruct (negb (b =? OWNER_ID cfg)).
Qed.

End Admins.

(** ** The charge for a lookup *)

Section Lookups.

Implicit Types (s : bot) (cfg : config) (u : user_row).

Lemma substring_0_length n (t : string) :
  String.length (substring 0 n t) = Nat.min n (String.length t).
Proof.
  revert t. induction n as [|n IH]; intros t; destruct t as [|c t]; simpl; try done.
  by rewrite IH.
Qed.

Lemma substring_0_prefix n (t : string) :
  ∃ rest, t = substring 0 n t +:+ rest.
Proof.
  revert t. induction n as [|n IH]; intros t; destruct t as [|c t]; simpl.
  - by exists "".
  - by exists (String c t).
  - by exists "".
  - destruct (IH t) as [rest Hr]. exists rest. change (String c t = String c (substring 0 n t +:+ rest)). congruence.
Qed.

Lemma substring_0_short n (t : string) :
  (String.length t ≤ n)%nat → substring 0 n t = t.
Proof.
  revert t. induction n as [|n IH]; intros t; destruct t as [|c t]; simpl;
    try done; [lia|].
  intros H. rewrite IH; [done | lia].
Qed.

(** X17: [log_lookup] appends one row and cuts its texts: the stored input
    is the first 500 characters of the input and the stored result the
    first 1000 of the result, unchanged when they are not longer than that.
    The ledger and the admins are not touched. *)
Theorem log_lookup_truncates uid api_type input_data result now s :
  ∃ row,
    lookup_logs (log_lookup uid api_type input_data result now s)
    = (lookup_logs s ++ [row])%list
    ∧ get_total_lookups (log_lookup uid api_type input_data result now s)
      = get_total_lookups s + 1
    ∧ lookup_user row = uid ∧ lookup_api_type row = api_type
    ∧ String.length (lookup_input row) = Nat.min 500 (String.length input_data)
    ∧ String.length (lookup_result row) = Nat.min 1000 (String.length result)
    ∧ (∃ rest, input_data = lookup_input row +:+ rest)
    ∧ (∃ rest, result = lookup_result row +:+ rest)
    ∧ ((String.length input_data ≤ 500)%nat → lookup_input row = input_data)
    ∧ ((String.length result ≤ 1000)%nat → lookup_result row = result)
    ∧ ledger (log_lookup uid api_type input_data result now s) = ledger s
    ∧ admins (log_lookup uid api_type input_data result now s) = admins s.
Proof.
  eexists. split; [reflexivity|].
  split; [unfold get_total_lookups, log_lookup; simpl; rewrite length_app; simpl; lia|].
  cbn [lookup_user lookup_api_type lookup_input lookup_result].
  split; [done|]. split; [done|].
  split; [apply substring_0_length|]. split; [apply substring_0_length|].
  split; [apply substring_0_prefix|]. split; [apply substring_0_prefix|].
  split; [apply substring_0_short|]. split; [apply substring_0_short | done].
Qed.

(** Run the next piece of a schedule of one or two calls of
    [process_api_call]. *)
Ltac api_step :=
  first [rewrite interleave_with_first | rewrite interleave_with_second
        | rewrite interleave_with_only];
  unfold api_piece, is_user_banned, get_user;
  cbn [api_at api_user api_type api_input api_result api_shown api_now
       api_goto fst snd].

(** A call of [process_api_call] that runs with nothing in between does
    what [process_api_call] does. *)
Lemma api_alone_is_process_api_call cfg uid type input_data formatted_json
    shown now s :
  interleave_api cfg [0; 0; 0; 0; 0; 0; 0]%nat s
    [new_api uid type input_data formatted_json shown now]
  = (fst (process_api_call cfg uid type input_data formatted_json shown now s),
     [mk_api uid type input_data formatted_json shown now
        (ApiEnded (snd (process_api_call cfg uid type input_data
                          formatted_json shown now s)))]).
Proof.
  unfold interleave_api, new_api, process_api_call, is_user_banned, get_user.
  api_step.
  destruct (match users (ledger s) !! uid with
            | Some u => is_banned u
            | None => false
            end); cbn [fst snd]; [by repeat api_step|].
  api_step. api_step.
  destruct (truthy (is_user_admin cfg uid s)) eqn:Hadmin; cbn [fst snd].
  - api_step. destruct shown; cbn [negb fst snd]; [|by repeat api_step].
    api_step. api_step. by api_step.
  - destruct (users (ledger s) !! uid) as [u|]; cbn [fst snd];
      [|by repeat api_step].
    destruct (credits u <? 1); cbn [fst snd]; [by repeat api_step|].
    api_step. destruct shown; cbn [negb fst snd]; [|by repeat api_step].
    api_step. api_step. by api_step.
Qed.

(** X18: the charge of [process_api_call] for an account that is registered
    and not an admin.  A call that runs with no other call of the account in
    between passes the balance test only from a balance of at least 1; when
    it is served it takes exactly one credit, logs one row and leaves
    [total_earned] alone, and on every other ending the whole database is as
    it was.  The balance is tested before the request to the lookup service
    and not read again before the charge: two lookups of one account that
    both pass the test before either is charged are both served and both
    charged, so the balance ends 2 lower, and from a balance of 1 it ends at
    -1. *)
Theorem lookup_charge cfg uid type input_data formatted_json shown now s u
    (Hu : users (ledger s) !! uid = Some u)
    (Huser : truthy (is_user_admin cfg uid s) = false) :
  let r := process_api_call cfg uid type input_data formatted_json shown now s in
  match snd r with
  | ApiServed =>
      1 ≤ credits u
      ∧ users (ledger (fst r)) !! uid
        = Some (set_last_active now (add_credits (-1) u))
      ∧ get_total_lookups (fst r) = get_total_lookups s + 1
  | _ => fst r = s
  end
  ∧ (∃ u', users (ledger (fst r)) !! uid = Some u'
           ∧ total_earned u' = total_earned u
           ∧ credits u' = credits u - (match snd r with ApiServed => 1 | _ => 0 end))
  ∧ (is_banned u = false → 1 ≤ credits u →
     ∀ type2 input2 json2 now2,
       let r2 := interleave_api cfg
                   [0; 0; 0; 0; 1; 1; 1; 1; 0; 0; 0; 1; 1; 1]%nat s
                   [new_api uid type input_data formatted_json true now;
                    new_api uid type2 input2 json2 true now2] in
       map api_at (snd r2) = [ApiEnded ApiServed; ApiEnded ApiServed]
       ∧ get_total_lookups (fst r2) = get_total_lookups s + 2
       ∧ ∃ u2, users (ledger (fst r2)) !! uid = Some u2
               ∧ total_earned u2 = total_earned u
               ∧ credits u2 = credits u - 2
               ∧ (credits u = 1 → credits u2 = -1)).
Proof.
  cbv zeta. split; [|split].
  - unfold process_api_call, is_user_banned, get_user. rewrite Hu, Huser.
    destruct (is_banned u); [done|].
    destruct (Z.ltb_spec (credits u) 1); [done|].
    destruct shown; [|done]. cbn [negb fst snd].
    split; [lia|]. split.
    + cbn [ledger with_ledger log_lookup].
      by rewrite update_last_active_lookup, update_credits_lookup, Hu.
    + unfold get_total_lookups. cbn [lookup_logs with_ledger log_lookup].
      rewrite length_app. simpl. lia.
  - unfold process_api_call, is_user_banned, get_user. rewrite Hu, Huser.
    destruct (is_banned u); [exists u; by rewrite Z.sub_0_r|].
    destruct (Z.ltb_spec (credits u) 1); [exists u; by rewrite Z.sub_0_r|].
    destruct shown; [|exists u; by rewrite Z.sub_0_r]. cbn [negb fst snd].
    cbn [ledger with_ledger log_lookup].
    rewrite update_last_active_lookup, update_credits_lookup, Hu.
    eexists. split; [reflexivity|]. simpl. split; [done | lia].
  - intros Hfree Hbal type2 input2 json2 now2.
    assert (Htest : (credits u <? 1) = false) by (apply Z.ltb_ge; lia).
    unfold interleave_api, new_api.
    (* both calls: ban probe, row, admin level and balance test, request *)
    api_step. rewrite Hu, Hfree. cbn [fst snd].
    api_step. rewrite Hu.
    api_step. rewrite Huser, Htest. cbn [fst snd].
    api_step. cbn [negb fst snd].
    api_step. rewrite Hu, Hfree. cbn [fst snd].
    api_step. rewrite Hu.
    api_step. rewrite Huser, Htest. cbn [fst snd].
    api_step. cbn [negb fst snd].
    (* the charges, one call after the other *)
    do 6 api_step.
    cbn [interleave_with fst snd map api_at].
    split; [reflexivity|]. split.
    + unfold get_total_lookups. cbn [lookup_logs with_ledger log_lookup].
      rewrite !length_app. simpl. lia.
    + cbn [ledger with_ledger log_lookup].
      rewrite update_last_active_lookup, update_credits_lookup,
        update_last_active_lookup, update_credits_lookup, Hu.
      eexists. split; [reflexivity|]. simpl. repeat split; lia.
Qed.

Lemma lookup_charge_witness :
  let cfg := mk_config 1000 [] in
  let s := mk_bot (update_credits 7 (-4) (add_user 7 None None 0 init_db)) ∅ [] in
  let r2 := interleave_api cfg [0; 0; 0; 0; 1; 1; 1; 1; 0; 0; 0; 1; 1; 1]%nat s
              [new_api 7 "num" "98" "{}" true 1; new_api 7 "num" "99" "{}" true 2] in
  map api_at (snd r2) = [ApiEnded ApiServed; ApiEnded ApiServed]
  ∧ ∃ u2, users (ledger (fst r2)) !! 7 = Some u2 ∧ credits u2 = -1.
Proof.
  destruct (lookup_charge (mk_config 1000 []) 7 "num" "98" "{}" true 1
              (mk_bot (update_credits 7 (-4) (add_user 7 None None 0 init_db)) ∅ [])
              (mk_user None 1 0 None false 0 0))
    as (_ & _ & Hrace); [reflexivity | reflexivity |].
  destruct (Hrace eq_refl ltac:(simpl; lia) "num" "99" "{}" 2)
    as (Hends & _ & u2 & Hrow & _ & _ & Hneg).
  split; [exact Hends|]. exists u2. split; [exact Hrow | by apply Hneg].
Defined.

(** X19: an admin is never charged.  For a caller with admin rights that is
    not banned, [process_api_call] does not read the balance (the call is
    served even from 0 credits or without a row in [users]) and every
    balance and [total_earned] is what it was. *)
Theorem lookup_free_for_admin cfg uid api_type input_data formatted_json now s
    (Hadmin : truthy (is_user_admin cfg uid s) = true)
    (Hfree : is_user_banned uid (ledger s) = false) :
  let r := process_api_call cfg uid api_type input_data formatted_json true now s in
  snd r = ApiServed
  ∧ get_total_lookups (fst r) = get_total_lookups s + 1
  ∧ ∀ other,
      credits <$> users (ledger (fst r)) !! other
      = credits <$> users (ledger s) !! other
      ∧ total_earned <$> users (ledger (fst r)) !! other
        = total_earned <$> users (ledger s) !! other.
Proof.
  cbv zeta. unfold process_api_call. rewrite Hfree, Hadmin. cbn [negb fst snd].
  split; [done|]. split.
  - unfold get_total_lookups. cbn [lookup_logs with_ledger log_lookup].
    rewrite length_app. simpl. lia.
  - intros other. cbn [ledger with_ledger log_lookup].
    split; [apply update_last_active_credits|].
    unfold update_last_active. simpl.
    destruct (decide (uid = other)) as [->|Hne].
    + rewrite lookup_alter_eq. by destruct (users (ledger s) !! other).
    + by rewrite lookup_alter_ne.
Qed.

Lemma lookup_free_for_admin_witness :
  let cfg := mk_config 1000 [7] in
  let s := mk_bot (update_credits 7 (-5) (add_user 7 None None 0 init_db)) ∅ [] in
  snd (process_api_call cfg 7 "num" "98" "{}" true 1 s) = ApiServed
  ∧ credits <$> users (ledger (fst (process_api_call cfg 7 "num" "98" "{}" true 1 s))) !! 7
    = Some 0.
Proof.
  destruct (lookup_free_for_admin (mk_config 1000 [7]) 7 "num" "98" "{}" 1
              (mk_bot (update_credits 7 (-5) (add_user 7 None None 0 init_db)) ∅ []))
    as (H1 & _ & H2); [reflexivity | reflexivity |].
  split; [exact H1|]. destruct (H2 7) as [-> _]. reflexivity.
Defined.

End Lookups.

(** ** Paging of the user list *)

Section Paging.

Implicit Types (users : list Z) (p : nat).

Lemma users_page_chunk users p :
  users_page users (Z.of_nat (S p)) = take 10 (drop (10 * p) users).
Proof.
  unfold users_page, slice, slice_bound, per_page.
  replace ((Z.of_nat (S p) - 1) * 10) with (Z.of_nat (10 * p)) by lia.
  set (len := length users).
  destruct (Z.ltb_spec (Z.of_nat (10 * p)) 0); [lia|].
  destruct (Z.ltb_spec (Z.of_nat (10 * p) + 10) 0); [lia|].
  destruct (Nat.le_gt_cases len (10 * p)) as [Hout|Hin].
  - rewrite !drop_ge; [by rewrite !take_nil | lia | lia].
  - replace (Z.to_nat (Z.of_nat (10 * p) `min` Z.of_nat len)) with (10 * p)%nat by lia.
    destruct (Nat.le_gt_cases (10 * p + 10) len) as [Hfull|Hlast].
    + f_equal. lia.
    + rewrite !take_ge; [done | rewrite length_drop; lia | rewrite length_drop; lia].
Qed.

Lemma chunks_concat (n : nat) : ∀ (l : list Z),
  (length l ≤ 10 * n)%nat →
  concat (map (λ p, take 10 (drop (10 * p) l)) (seq 0 n)) = l.
Proof.
  induction n as [|n IH]; intros l Hl.
  - destruct l; [done | simpl in Hl; lia].
  - cbn [seq map concat]. rewrite <- seq_shift, map_map.
    transitivity ((take 10 l ++ drop 10 l)%list); [|apply take_drop].
    f_equal.
    etransitivity; [|apply (IH (drop 10 l)); rewrite length_drop; lia].
    f_equal. apply map_ext. intros p. rewrite drop_drop. do 2 f_equal. lia.
Qed.

Lemma total_pages_enough users :
  0 ≤ total_pages users
  ∧ Z.of_nat (length users) ≤ 10 * total_pages users
  ∧ 10 * total_pages users < Z.of_nat (length users) + 10.
Proof.
  unfold total_pages, per_page.
  pose proof (Z.div_mod (Z.of_nat (length users) + 10 - 1) 10 ltac:(lia)).
  pose proof (Z.mod_pos_bound (Z.of_nat (length users) + 10 - 1) 10 ltac:(lia)).
  lia.
Qed.

(** X20: the pages of the user list partition it.  Pages 1 to
    [total_pages], one after the other, give back the list that
    [get_all_users] returned: every account is shown once, in order. *)
Theorem pages_cover_users users :
  concat (map (λ p, users_page users (Z.of_nat p))
              (seq 1 (Z.to_nat (total_pages users))))
  = users.
Proof.
  rewrite <- seq_shift, map_map.
  rewrite (map_ext _ (λ p, take 10 (drop (10 * p) users)))
    by (intros p; apply users_page_chunk).
  apply chunks_concat. pose proof (total_pages_enough users). lia.
Qed.

(** X21: a page shows at most 10 accounts, and a page number that is not
    negative shows none exactly when it is 0 or beyond [total_pages]; the
    Next button is offered exactly when the following page shows
    something. *)
Theorem page_bounds users p :
  let page := Z.of_nat p in
  (length (users_page users page) ≤ 10)%nat
  ∧ (users_page users page = [] ↔ p = 0%nat ∨ total_pages users < page)
  ∧ (has_next users page = true ↔ users_page users (page + 1) ≠ []).
Proof.
  cbv zeta. pose proof (total_pages_enough users) as (H0 & Hlo & Hhi).
  assert (Hchunk : ∀ q, take 10 (drop (10 * q) users) = []
                        ↔ (length users ≤ 10 * q)%nat).
  { intros q. split.
    - intros Hnil. apply (f_equal length) in Hnil.
      rewrite length_take, length_drop in Hnil. cbn [length] in Hnil. lia.
    - intros Hle. rewrite drop_ge by done. apply take_nil. }
  split; [|split].
  - destruct p as [|p].
    + unfold users_page, slice. rewrite length_take. simpl.
      unfold slice_bound, per_page. simpl.
      destruct (Z.ltb_spec (-10) 0); lia.
    + rewrite users_page_chunk, length_take. lia.
  - destruct p as [|p].
    + split; [by left | intros _].
      unfold users_page, slice, slice_bound, per_page. simpl.
      match goal with |- take ?n _ = _ => replace n with 0%nat by lia end.
      done.
    + rewrite users_page_chunk, Hchunk. split; [intros; right; lia|].
      intros [?|?]; [done | lia].
  - replace (Z.of_nat p + 1) with (Z.of_nat (S p)) by lia.
    rewrite users_page_chunk. unfold has_next. rewrite Z.ltb_lt.
    split.
    + intros Hlt Hnil. apply Hchunk in Hnil. lia.
    + intros Hne. destruct (Z.lt_ge_cases (Z.of_nat p) (total_pages users)); [done|].
      exfalso. apply Hne, Hchunk. lia.
Qed.

End Paging.

(** ** More on the duration parser *)

Section DurationMore.
Import Duration.

Lemma lower_char_idem c : lower_char (lower_char c) = lower_char c.
Proof. destruct c as [[] [] [] [] [] [] [] []]; reflexivity. Qed.

Lemma lower_idem s : lower (lower s) = lower s.
Proof. induction s as [|c s IH]; simpl; [done | by rewrite lower_char_idem, IH]. Qed.

(** X22: [parse_time_string] does not look at the case of letters: a text
    and its lower-case form give the same result. *)
Theorem parse_ignores_case s :
  parse_time_string (Some s) = parse_time_string (Some (lower s)).
Proof.
  unfold parse_time_string. rewrite lower_idem.
  by destruct s.
Qed.

Lemma span_digits_rest u s :
  mentions u (span_digits s).2 = true → mentions u s = true.
Proof.
  induction s as [|c s IH]; simpl; [done|].
  destruct (is_digit c); [|done].
  destruct (span_digits s) as [ds rest]. simpl in *.
  intros H. rewrite IH by done. apply orb_true_r.
Qed.

Lemma match_here_mentions u s g :
  match_here u s = Some g → mentions u s = true.
Proof.
  unfold match_here. intros H. apply span_digits_rest.
  destruct (span_digits s) as [ds rest]. simpl.
  destruct ds; [done|]. destruct rest as [|c rest]; [done|].
  simpl. destruct (Ascii.eqb c u); done.
Qed.

Lemma re_search_unmentioned u s : mentions u s = false → re_search u s = None.
Proof.
  induction s as [|c s IH]; intros Hm; [reflexivity|].
  change (re_search u (String c s))
    with (match match_here u (String c s) with
          | Some g => Some g
          | None => re_search u s
          end).
  destruct (match_here u (String c s)) as [g|] eqn:Hh.
  - apply match_here_mentions in Hh. congruence.
  - apply IH. simpl in Hm. by apply orb_false_iff in Hm as [_ Hm].
Qed.

(** X23: hours and minutes are the only units.  A text in which neither
    letter h nor letter m occurs (in either case) and which is not a bare
    number gives no expiry, whatever digits it carries: days such as 1d are
    not understood. *)
Theorem parse_needs_unit s
    (Hh : mentions "h" (lower s) = false)
    (Hm : mentions "m" (lower s) = false)
    (Hnum : isdigit (lower s) = false) :
  parse_time_string (Some s) = None.
Proof.
  unfold parse_time_string.
  destruct (String.eqb s "" || String.eqb (lower s) "none"); [done|].
  rewrite !re_search_unmentioned by done. simpl. by rewrite Hnum.
Qed.

Lemma parse_needs_unit_witness :
  parse_time_string (Some "1d") = None ∧ parse_time_string (Some "2 Days") = None.
Proof.
  split; [apply (parse_needs_unit "1d") | apply (parse_needs_unit "2 Days")];
    reflexivity.
Defined.

End DurationMore.

(** ** The redeem text and the admin credit commands *)

Section Handlers.

Implicit Types (st : db) (s : bot) (u : user_row) (cfg : config).

(** X24: the balance announced after a successful redemption counts the
    amount twice.  The row is read after [redeem_code_db] has credited it
    and the amount is added again: for a registered account the text shows
    the stored balance plus the amount, that is the old balance plus twice
    the amount. *)
Theorem redeem_message_adds_amount_again st uid text now u amt shown
    (Hu : users st !! uid = Some u)
    (Hmsg : snd (redeem_input uid text now st) = Some (MsgRedeemed amt shown)) :
  ∃ u', users (fst (redeem_input uid text now st)) !! uid = Some u'
        ∧ credits u' = credits u + amt
        ∧ shown = credits u' + amt
        ∧ shown = credits u + 2 * amt.
Proof.
  unfold redeem_input in *.
  destruct (is_user_banned uid st); [done|].
  destruct (redeem_code_db now uid (upper (strip text)) st) as [st1 out] eqn:Hr.
  destruct out; try discriminate Hmsg.
  apply redeem_success_inv in Hr as (_ & c & _ & _ & _ & ->).
  cbn [fst snd] in *. unfold get_user in Hmsg.
  rewrite redeem_transaction_users, !lookup_alter_eq, Hu in Hmsg |- *.
  simpl in Hmsg |- *. injection Hmsg as <- <-.
  eexists; split; [reflexivity|]. simpl. lia.
Qed.

Lemma redeem_message_adds_amount_again_witness :
  let st := run [AddUser 1 None None 0; CreateRedeemCode "FLASH100" 100 1 None 0]
                init_db in
  snd (redeem_input 1 " flash100 " 5 st) = Some (MsgRedeemed 100 205)
  ∧ credits <$> users (fst (redeem_input 1 " flash100 " 5 st)) !! 1 = Some 105.
Proof.
  destruct (redeem_message_adds_amount_again
              (run [AddUser 1 None None 0; CreateRedeemCode "FLASH100" 100 1 None 0]
                   init_db)
              1 " flash100 " 5 (mk_user None 5 0 None false 0 0) 100 205)
    as (u' & Hu' & Hc & _); [reflexivity | reflexivity |].
  split; [reflexivity|]. cbv zeta. rewrite Hu'. simpl. by rewrite Hc.
Defined.

(** X25: a gift taken back leaves a trace.  When an admin runs
    [gift_credits] and then [remove_credits] for the same registered account
    and amount, the balance is back where it was, and [total_earned] has
    grown by the absolute value of the amount: a positive amount is counted
    when given, a negative one when removed.  A caller without admin rights
    changes nothing. *)
Theorem gift_then_remove cfg caller uid amt s u
    (Hu : users (ledger s) !! uid = Some u) :
  let s' := remove_credits cfg caller (Some (uid, amt))
              (gift_credits cfg caller (Some (uid, amt)) s) in
  if truthy (is_user_admin cfg caller s)
  then ∃ u', users (ledger s') !! uid = Some u'
             ∧ credits u' = credits u
             ∧ total_earned u' = total_earned u + Z.abs amt
  else s' = s.
Proof.
  cbv zeta. unfold gift_credits.
  destruct (truthy (is_user_admin cfg caller s)) eqn:Ha; simpl.
  - unfold remove_credits.
    assert (Ha' : truthy (is_user_admin cfg caller
                            (with_ledger (update_credits uid amt) s)) = true)
      by exact Ha.
    rewrite Ha'. cbn [negb ledger with_ledger].
    rewrite !update_credits_lookup, Hu. simpl.
    eexists; split; [reflexivity|].
    destruct (Z.gtb_spec amt 0), (Z.gtb_spec (- amt) 0); simpl; lia.
  - unfold remove_credits. by rewrite Ha.
Qed.

Lemma gift_then_remove_witness :
  let cfg := mk_config 1000 [] in
  let s := mk_bot (add_user 7 None None 0 init_db) ∅ [] in
  ∃ u', users (ledger (remove_credits cfg 1000 (Some (7, 20))
                         (gift_credits cfg 1000 (Some (7, 20)) s))) !! 7 = Some u'
        ∧ credits u' = 5 ∧ total_earned u' = 20.
Proof.
  pose proof (gift_then_remove (mk_config 1000 []) 1000 7 20
                (mk_bot (add_user 7 None None 0 init_db) ∅ [])
                (mk_user None 5 0 None false 0 0) eq_refl) as H.
  exact H.
Defined.

End Handlers.

(** ** Two calls racing, in general *)

Section RacingInGeneral.

Implicit Types (st : db) (c : code_row) (u : user_row).

(** The schedule in which both calls pass their checks before either runs
    its transaction. *)
Lemma race_runs_both_transactions st uid1 uid2 code c now1 now2 :
  redeem_codes st !! code = Some c →
  has_claimed uid1 code st = false → has_claimed uid2 code st = false →
  redeem_checks now1 c = None → redeem_checks now2 c = None →
  interleave [0; 0; 1; 1; 0; 1]%nat st
             [new_call uid1 code now1; new_call uid2 code now2]
  = (redeem_transaction now2 uid2 code (amount c)
       (redeem_transaction now1 uid1 code (amount c) st),
     [mk_call uid1 code now1 (Returned (Success (amount c)));
      mk_call uid2 code now2 (Returned (Success (amount c)))]).
Proof.
  intros Hc H1 H2 Hok1 Hok2. unfold new_call.
  simpl. unfold advance at 1. simpl. rewrite H1. simpl.
  unfold advance at 1. simpl. rewrite Hc, Hok1. simpl.
  unfold advance at 1. simpl. rewrite H2. simpl.
  unfold advance at 1. simpl. rewrite Hc, Hok2. simpl.
  reflexivity.
Qed.

(** X26: the use limit does not hold under interleaving.  Whenever two
    calls of [redeem_code_db] on the same code both pass the probe and the
    checks before either runs its transaction, both return the amount and
    the counter goes up by 2; with one use left it ends above [max_uses]. *)
Theorem race_passes_limit st uid1 uid2 code c now1 now2
    (Hc : redeem_codes st !! code = Some c)
    (H1 : has_claimed uid1 code st = false)
    (H2 : has_claimed uid2 code st = false)
    (Hok1 : redeem_checks now1 c = None)
    (Hok2 : redeem_checks now2 c = None) :
  let r := interleave [0; 0; 1; 1; 0; 1]%nat st
                      [new_call uid1 code now1; new_call uid2 code now2] in
  results (snd r)
  = [Returned (Success (amount c)); Returned (Success (amount c))]
  ∧ (∃ c', redeem_codes (fst r) !! code = Some c'
           ∧ current_uses c' = current_uses c + 2
           ∧ max_uses c' = max_uses c
           ∧ (max_uses c = current_uses c + 1 → max_uses c' < current_uses c')).
Proof.
  cbv zeta. rewrite (race_runs_both_transactions st uid1 uid2 code c) by done.
  split; [reflexivity|]. cbn [fst].
  rewrite !redeem_transaction_codes, !lookup_alter_eq, Hc. simpl.
  eexists; split; [reflexivity|]. simpl. repeat split; lia.
Qed.

Lemma race_passes_limit_witness :
  let st := run [CreateRedeemCode "A" 10 1 None 0] init_db in
  ∃ c', redeem_codes
          (fst (interleave [0; 0; 1; 1; 0; 1]%nat st
                           [new_call 1 "A" 1; new_call 2 "A" 2])) !! "A" = Some c'
        ∧ current_uses c' = 0 + 2 ∧ max_uses c' = 1.
Proof.
  destruct (race_passes_limit (run [CreateRedeemCode "A" 10 1 None 0] init_db)
              1 2 "A" (mk_code 10 1 0 None 0 true) 1 2)
    as (_ & c' & H1 & H2 & H3 & _);
    [reflexivity | reflexivity | reflexivity | reflexivity | reflexivity |].
  exists c'. split; [exact H1 | split; [exact H2 | exact H3]].
Defined.

(** X27: the uniqueness of [redeem_logs] stops the second row, not the
    second credit.  When one account has two calls on the same code in
    flight and both pass the probe before either transaction, the account is
    credited twice and the counter moves by 2, while the claim is logged
    once. *)
Theorem race_same_account_credited_twice st uid code c now1 now2 u
    (Hu : users st !! uid = Some u)
    (Hc : redeem_codes st !! code = Some c)
    (Hnew : has_claimed uid code st = false)
    (Hok1 : redeem_checks now1 c = None)
    (Hok2 : redeem_checks now2 c = None) :
  let r := interleave [0; 0; 1; 1; 0; 1]%nat st
                      [new_call uid code now1; new_call uid code now2] in
  results (snd r)
  = [Returned (Success (amount c)); Returned (Success (amount c))]
  ∧ (∃ u', users (fst r) !! uid = Some u'
           ∧ credits u' = credits u + 2 * amount c
           ∧ total_earned u' = total_earned u + 2 * amount c)
  ∧ redeem_logs (fst r) = (redeem_logs st ++ [mk_log uid code now1])%list
  ∧ current_uses <$> redeem_codes (fst r) !! code = Some (current_uses c + 2).
Proof.
  cbv zeta. rewrite (race_runs_both_transactions st uid uid code c) by done.
  split; [reflexivity|]. cbn [fst]. split; [|split].
  - rewrite !redeem_transaction_users, !lookup_alter_eq, Hu. simpl.
    eexists; split; [reflexivity|]. simpl. lia.
  - rewrite redeem_transaction_logs.
    unfold insert_log_or_ignore at 1. cbn [log_user log_code].
    pose proof (has_claimed_after_transaction now1 uid code (amount c) st) as Hin.
    unfold has_claimed in Hin. rewrite Hin.
    rewrite redeem_transaction_logs. by apply insert_log_fresh.
  - rewrite !redeem_transaction_codes, !lookup_alter_eq, Hc. simpl.
    f_equal. lia.
Qed.

Lemma race_same_account_credited_twice_witness :
  let st := run [AddUser 1 None None 0; CreateRedeemCode "A" 10 1 None 0] init_db in
  ∃ u', users (fst (interleave [0; 0; 1; 1; 0; 1]%nat st
                               [new_call 1 "A" 1; new_call 1 "A" 2])) !! 1 = Some u'
        ∧ credits u' = 5 + 2 * 10.
Proof.
  destruct (race_same_account_credited_twice
              (run [AddUser 1 None None 0; CreateRedeemCode "A" 10 1 None 0] init_db)
              1 "A" (mk_code 10 1 0 None 0 true) 1 2
              (mk_user None 5 0 None false 0 0))
    as (_ & (u' & H1 & H2 & _) & _);
    [reflexivity | reflexivity | reflexivity | reflexivity | reflexivity |].
  exists u'. split; [exact H1 | exact H2].
Defined.

End RacingInGeneral.

(** ** Codes created again, and codes that are not there *)

Section CodeIdentifiers.

Implicit Types (st : db) (c : code_row).

(** X28: claims outlive the code row.  [delete_redeem_code] and
    [create_redeem_code] leave [redeem_logs] alone, so after a code is
    created again under an identifier (deleted in between or not) every
    account that claimed the old code is answered already-claimed, while the
    new row starts with a counter of 0 and is active. *)
Theorem recreated_code_keeps_claims st uid code amt uses expiry t now
    (Hclaimed : has_claimed uid code st = true) :
  let st1 := create_redeem_code code amt uses expiry t st in
  let st2 := create_redeem_code code amt uses expiry t (delete_redeem_code code st) in
  redeem_code_db now uid code st1 = (st1, AlreadyClaimed)
  ∧ redeem_code_db now uid code st2 = (st2, AlreadyClaimed)
  ∧ redeem_codes st1 !! code = Some (mk_code amt uses 0 expiry t true)
  ∧ redeem_codes st2 !! code = Some (mk_code amt uses 0 expiry t true).
Proof.
  cbv zeta. split; [by apply redeem_already_claimed|].
  split; [by apply redeem_already_claimed|].
  unfold create_redeem_code, delete_redeem_code. simpl.
  by rewrite !lookup_insert_eq.
Qed.

Lemma recreated_code_keeps_claims_witness :
  let st := run [AddUser 1 None None 0; CreateRedeemCode "A" 10 5 None 0;
                 RedeemCodeDb 1 "A" 1; DeleteRedeemCode "A";
                 CreateRedeemCode "A" 50 5 None 2] init_db in
  redeem_code_db 3 1 "A" st = (st, AlreadyClaimed).
Proof.
  refine (proj1 (recreated_code_keeps_claims
                   (run [AddUser 1 None None 0; CreateRedeemCode "A" 10 5 None 0;
                         RedeemCodeDb 1 "A" 1; DeleteRedeemCode "A"] init_db)
                   1 "A" 50 5 None 2 3 _)).
  reflexivity.
Defined.

(** X29: on an identifier without a row, [deactivate_code] and
    [delete_redeem_code] change nothing: no row is made, and a code created
    under that identifier afterwards is active. *)
Theorem deactivate_unknown_code st code amt uses expiry t
    (Hnone : redeem_codes st !! code = None) :
  deactivate_code code st = st
  ∧ delete_redeem_code code st = st
  ∧ is_active <$> redeem_codes
      (create_redeem_code code amt uses expiry t (deactivate_code code st)) !! code
    = Some true.
Proof.
  assert (Hd : deactivate_code code st = st).
  { unfold deactivate_code, with_codes. destruct st as [us cs ls]. simpl in *.
    f_equal. apply alter_id. intros x Hx. congruence. }
  split; [exact Hd|]. split.
  - unfold delete_redeem_code, with_codes. destruct st as [us cs ls]. simpl in *.
    f_equal. by apply delete_id.
  - rewrite Hd. unfold create_redeem_code. simpl. by rewrite lookup_insert_eq.
Qed.

Lemma deactivate_unknown_code_witness :
  deactivate_code "GHOST" init_db = init_db.
Proof.
  refine (proj1 (deactivate_unknown_code init_db "GHOST" 1 1 None 0 _)).
  reflexivity.
Defined.

End CodeIdentifiers.

(** ** Referral counts *)

Section Referrals.

Implicit Types (st : db) (u : user_row) (m : gmap Z user_row).

Lemma sum_users_alter_same f g m i :
  (∀ x, f (g x) = f x) → sum_users f (alter g i m) = sum_users f m.
Proof.
  intros Hfg. destruct (m !! i) as [x|] eqn:Hi.
  - rewrite (sum_users_alter f g m i x Hi), Hfg. lia.
  - rewrite alter_id; [done | intros x Hx; congruence].
Qed.

Lemma count_referrals_update_credits r uid d st :
  count_referrals r (update_credits uid d st) = count_referrals r st.
Proof.
  unfold count_referrals, update_credits.
  destruct (d >? 0); simpl; by apply sum_users_alter_same.
Qed.

Lemma count_referrals_update_last_active r uid t st :
  count_referrals r (update_last_active uid t st) = count_referrals r st.
Proof.
  unfold count_referrals, update_last_active. simpl.
  by apply sum_users_alter_same.
Qed.

(** X30: every registration through a link is counted for the id in the
    link.  When a new account starts with the payload [r] and [r] is not its
    own id, the number of accounts referred by [r] goes up by one, whether
    or not [r] has a row and also for [r = 0] where no bonus is paid; a
    payload equal to the own id is dropped and counts for nobody.  The
    figures of [get_user_stats] exist only for an id with a row, and the
    codes-claimed figure is the length of the redeem history. *)
Theorem referral_is_counted st uid n r member t
    (Hnew : users st !! uid = None) :
  count_referrals r (start_command uid n (Some r) member t st)
  = count_referrals r st + (if r =? uid then 0 else 1)
  ∧ (∀ other, get_user_stats other st = None ↔ users st !! other = None)
  ∧ (∀ other a b c, get_user_stats other st = Some (a, b, c) →
       a = count_referrals other st
       ∧ b = Z.of_nat (length (get_user_redeem_history other st))).
Proof.
  split; [|split].
  - unfold start_command, is_user_banned, get_user. rewrite Hnew.
    set (reg := match (if r =? uid then None else Some r) with
                | Some r0 =>
                    if r0 =? 0
                    then add_user uid n (if r =? uid then None else Some r) t st
                    else update_credits r0 referral_bonus
                           (add_user uid n (if r =? uid then None else Some r) t st)
                | None => add_user uid n (if r =? uid then None else Some r) t st
                end).
    assert (Hreg : count_referrals r reg
                   = count_referrals r st + (if r =? uid then 0 else 1)).
    { unfold reg. destruct (Z.eqb_spec r uid) as [->|Hne].
      - unfold count_referrals. rewrite add_user_new by done.
        rewrite sum_users_insert by done. unfold referred_by. simpl. lia.
      - assert (Hadd : count_referrals r (add_user uid n (Some r) t st)
                       = count_referrals r st + 1).
        { unfold count_referrals. rewrite add_user_new by done.
          rewrite sum_users_insert by done. unfold referred_by at 1. simpl.
          rewrite Z.eqb_refl. lia. }
        destruct (r =? 0); [done|]. by rewrite count_referrals_update_credits. }
    destruct member; [|exact Hreg].
    by rewrite count_referrals_update_last_active.
  - intros other. unfold get_user_stats.
    destruct (users st !! other); split; done.
  - intros other a b c. unfold get_user_stats, get_user_redeem_history.
    destruct (users st !! other); [|done].
    intros [= <- <- <-]. by rewrite length_map.
Qed.

Lemma referral_is_counted_witness :
  count_referrals 4 (start_command 7 None (Some 4) true 1 init_db)
  = count_referrals 4 init_db + 1.
Proof.
  refine (proj1 (referral_is_counted init_db 7 None 4 true 1 _)).
  reflexivity.
Defined.

End Referrals.
